(** * PDF-Wizard: the text reconstruction core ([utils/pdfProcessor])

    A shallow embedding of the PDF text-extraction utilities
    ([cleanExtractedText], [processTextContent], [validatePDFFile],
    [extractDetailedTextFromPDF], [extractTextWithProgress]) together with
    the properties the specification states about them.

    Conventions of the embedding:
    - a JavaScript string is the list of its UTF-16 code units ([N]);
    - the numbers of the layout heuristics and of the progress callback are
      exact rationals ([Q]); page numbers and sizes are natural numbers;
    - the expression of the progress bar of the upload component rounds
      after each operation, with the rounding [round] as a parameter;
    - a rejected promise or a thrown exception is the [Throws] outcome;
    - the calls of the optional progress callback are collected in a log. *)

From Stdlib Require Import Strings.String Strings.Ascii Numbers.DecimalString.
From Stdlib Require Import List Bool Arith NArith ZArith QArith Qabs Lia Lqa.
Import ListNotations.

Local Open Scope list_scope.
Local Open Scope N_scope.

(* ===================================================================== *)
(** ** JavaScript strings *)
(* ===================================================================== *)

Module JS.

Definition char := N.
Definition jsstring := list char.

(** A string literal of the source, as code units. *)
Definition lit (s : String.string) : jsstring :=
  map N_of_ascii (list_ascii_of_string s).

Definition NL : char := 10.
Definition SP : char := 32.
Definition TAB : char := 9.

(** The code units that the regex class [\s] matches and that
    [String.prototype.trim] strips: WhiteSpace and LineTerminator. *)
Definition isWhiteSpace (c : char) : bool :=
  (c =? 9) || (c =? 10) || (c =? 11) || (c =? 12) || (c =? 13) ||
  (c =? 32) || (c =? 160) || (c =? 5760) ||
  ((8192 <=? c) && (c <=? 8202)) ||
  (c =? 8232) || (c =? 8233) || (c =? 8239) || (c =? 8287) ||
  (c =? 12288) || (c =? 65279).

(** The class [[ \t]]. *)
Definition isSpaceOrTab (c : char) : bool := (c =? 32) || (c =? 9).

Definition isNewline (c : char) : bool := c =? 10.

Fixpoint dropWhile (p : char -> bool) (s : jsstring) : jsstring :=
  match s with
  | [] => []
  | c :: r => if p c then dropWhile p r else s
  end.

Definition trimStart (s : jsstring) : jsstring := dropWhile isWhiteSpace s.

Fixpoint trimEnd (s : jsstring) : jsstring :=
  match s with
  | [] => []
  | c :: r =>
      match trimEnd r with
      | [] => if isWhiteSpace c then [] else [c]
      | r' => c :: r'
      end
  end.

(** [s.trim()] *)
Definition trim (s : jsstring) : jsstring := trimEnd (trimStart s).

(** [s.split(sep)] for a one-character separator; never the empty list. *)
Fixpoint split (sep : char) (s : jsstring) : list jsstring :=
  match s with
  | [] => [[]]
  | c :: r =>
      if c =? sep then [] :: split sep r
      else match split sep r with
           | l :: ls => (c :: l) :: ls
           | [] => [[c]]
           end
  end.

(** [ls.join(sep)] *)
Fixpoint join (sep : char) (ls : list jsstring) : jsstring :=
  match ls with
  | [] => []
  | l :: ls' =>
      match ls' with
      | [] => l
      | _ :: _ => l ++ sep :: join sep ls'
      end
  end.

(** [s.startsWith(c)] and [s.endsWith(c)] for a one-character argument. *)
Definition startsWith (c : char) (s : jsstring) : bool :=
  match s with
  | [] => false
  | d :: _ => d =? c
  end.

Definition endsWith (c : char) (s : jsstring) : bool :=
  startsWith c (rev s).

(** A string in a boolean position: only the empty string is falsy. *)
Definition truthy (s : jsstring) : bool :=
  match s with
  | [] => false
  | _ :: _ => true
  end.

(** ['' + n] for a page number. *)
Definition ofNat (n : nat) : jsstring :=
  lit (NilZero.string_of_uint (Nat.to_uint n)).

Definition eqb (s t : jsstring) : bool :=
  if list_eq_dec N.eq_dec s t then true else false.

End JS.

Import JS.

(* ===================================================================== *)
(** ** Regular expressions with the backtracking semantics of the engine *)
(* ===================================================================== *)

Module Regex.

(** The two patterns of the source are concatenations of character
    classes, some of them under a greedy star. *)
Inductive atom : Type :=
| One (p : char -> bool)
| Star (p : char -> bool).

Definition regex := list atom.

(** A greedy star over the class [p], followed by the rest [k] of the
    pattern: take one more character of the class first, and give it
    back when the rest of the pattern fails after it. *)
Fixpoint greedy (p : char -> bool) (k : jsstring -> option jsstring)
    (s : jsstring) : option jsstring :=
  match s with
  | c :: r =>
      if p c
      then match greedy p k r with
           | Some rest => Some rest
           | None => k s
           end
      else k s
  | [] => k []
  end.

(** [re_match re s] tries [re] at the start of [s] with the backtracking
    order of the engine; it returns what is left of [s] after the first
    match found. *)
Fixpoint re_match (re : regex) : jsstring -> option jsstring :=
  match re with
  | [] => fun s => Some s
  | One p :: k =>
      fun s =>
        match s with
        | c :: r => if p c then re_match k r else None
        | [] => None
        end
  | Star p :: k => greedy p (re_match k)
  end.

(** [s.replace(/re/g, repl)]: scan left to right; replace the match found
    at the current position and resume right after it; where nothing
    matches copy one character; after an empty match copy one character
    too, so that the scan advances. *)
Fixpoint replaceAll_fuel (fuel : nat) (re : regex) (repl s : jsstring)
  : jsstring :=
  match fuel with
  | O => s
  | S fuel' =>
      match s with
      | [] =>
          match re_match re [] with
          | Some _ => repl
          | None => []
          end
      | c :: r =>
          match re_match re s with
          | Some rest =>
              if (length rest <? length s)%nat
              then repl ++ replaceAll_fuel fuel' re repl rest
              else repl ++ c :: replaceAll_fuel fuel' re repl r
          | None => c :: replaceAll_fuel fuel' re repl r
          end
      end
  end.

Definition replaceAll (re : regex) (repl s : jsstring) : jsstring :=
  replaceAll_fuel (S (length s)) re repl s.

(** [/[ \t]+/] *)
Definition re_spaces : regex := [One isSpaceOrTab; Star isSpaceOrTab].

(** [/\n\s*\n\s*\n/] *)
Definition re_blank_lines : regex :=
  [One isNewline; Star isWhiteSpace; One isNewline; Star isWhiteSpace;
   One isNewline].

End Regex.

Import Regex.

(* ===================================================================== *)
(** ** [cleanExtractedText] *)
(* ===================================================================== *)

Definition collapseSpaces (s : jsstring) : jsstring :=
  replaceAll re_spaces [SP] s.

Definition collapseBlankLines (s : jsstring) : jsstring :=
  replaceAll re_blank_lines [NL; NL] s.

Definition trimLines (s : jsstring) : jsstring :=
  join NL (map trim (split NL s)).

Definition cleanExtractedText (text : jsstring) : jsstring :=
  trim (trimLines (collapseBlankLines (collapseSpaces text))).

(* ===================================================================== *)
(** ** [processTextContent]: the line and paragraph reconstructor *)
(* ===================================================================== *)

Record TextExtractionOptions : Type := {
  preserveFormatting : bool;
  includeMetadata : bool;
  combineTextItems : bool
}.

(** The options that the entry points use when the caller gives none. *)
Definition defaultOptions : TextExtractionOptions :=
  {| preserveFormatting := true; includeMetadata := true;
     combineTextItems := true |}.

(** A text item of the fragment source: [item.str], [item.transform[4]],
    [item.transform[5]] and the optional [item.width]. *)
Record TextItem : Type := {
  str : jsstring;
  transform4 : Q;
  transform5 : Q;
  width : option Q
}.

(** [textContent.items], absent when [textContent] or its [items] is
    falsy. *)
Definition TextContent := option (list TextItem).

(** The character class of the inner loop's third branch: ASCII letters
    and digits, and the punctuation . , ; : ! ? - ' (double quote) ( ) [ ]
    { } in that order. *)
Definition isStandardPrintable (c : char) : bool :=
  ((97 <=? c) && (c <=? 122)) || ((65 <=? c) && (c <=? 90)) ||
  ((48 <=? c) && (c <=? 57)) ||
  existsb (N.eqb c) [46; 44; 59; 58; 33; 63; 45; 39; 34; 40; 41; 91; 93; 123; 125].

(** One turn of the character loop: what is appended for [char]. *)
Definition processChar (c : char) : jsstring :=
  if 127 <? c then [c]
  else if c =? 32 then [SP]
  else if isStandardPrintable c then [c]
  else [c].

Definition processChars (itemText : jsstring) : jsstring :=
  fold_left (fun processedText c => processedText ++ processChar c) itemText [].

(** The variables of the item loop. *)
Record Recon : Type := {
  text : jsstring;
  lastY : option Q;
  lastX : option Q
}.

Definition initRecon : Recon :=
  {| text := []; lastY := None; lastX := None |}.

(** [a > b] on numbers. *)
Definition Qgtb (a b : Q) : bool := negb (Qle_bool a b).

(** [lastY !== null && Math.abs(currentY - lastY) > 5] *)
Definition movedVertically (last : option Q) (currentY : Q) : bool :=
  match last with
  | None => false
  | Some y => Qgtb (Qabs (currentY - y)) 5
  end.

(** [lastX !== null && currentX - lastX > 20] *)
Definition movedHorizontally (last : option Q) (currentX : Q) : bool :=
  match last with
  | None => false
  | Some x => Qgtb (currentX - x) 20
  end.

(** [lastY !== null && Math.abs(currentY - lastY) <= 5] *)
Definition onSameLine (last : option Q) (currentY : Q) : bool :=
  match last with
  | None => false
  | Some y => Qle_bool (Qabs (currentY - y)) 5
  end.

(** [item.width || 0] *)
Definition widthOrZero (w : option Q) : Q :=
  match w with
  | Some x => x
  | None => 0%Q
  end.

(** The body of the item loop at index [i]. *)
Definition processItem (options : TextExtractionOptions) (i : nat)
    (item : TextItem) (st : Recon) : Recon :=
  let itemText := str item in
  if negb (truthy (trim itemText)) then st
  else
    let currentY := transform5 item in
    let currentX := transform4 item in
    let processedText := processChars itemText in
    let text1 :=
      if preserveFormatting options then
        if movedVertically (lastY st) currentY then text st ++ [NL]
        else if movedHorizontally (lastX st) currentX then text st ++ [SP]
        else text st
      else text st in
    let text2 :=
      if combineTextItems options && (0 <? i)%nat then
        if onSameLine (lastY st) currentY && negb (endsWith SP text1)
           && negb (startsWith SP processedText)
        then text1 ++ [SP]
        else text1
      else text1 in
    {| text := text2 ++ processedText;
       lastY := Some currentY;
       lastX := Some (currentX + widthOrZero (width item))%Q |}.

Fixpoint processItems (options : TextExtractionOptions) (i : nat)
    (items : list TextItem) (st : Recon) : Recon :=
  match items with
  | [] => st
  | item :: rest => processItems options (S i) rest (processItem options i item st)
  end.

Definition processTextContent (textContent : TextContent)
    (options : TextExtractionOptions) : jsstring :=
  match textContent with
  | None => []
  | Some items => cleanExtractedText (text (processItems options 0 items initRecon))
  end.

(* ===================================================================== *)
(** ** [validatePDFFile] *)
(* ===================================================================== *)

Record File : Type := {
  type : jsstring;
  size : N
}.

Record Validation : Type := {
  isValid : bool;
  error : option jsstring
}.

Definition maxFileSize : N := 50 * 1024 * 1024.

Definition validatePDFFile (file : option File) : Validation :=
  match file with
  | None => {| isValid := false; error := Some (lit "No file provided") |}
  | Some f =>
      if negb (JS.eqb (type f) (lit "application/pdf")) then
        {| isValid := false; error := Some (lit "File must be a PDF document") |}
      else if maxFileSize <? size f then
        {| isValid := false; error := Some (lit "File size must be less than 50MB") |}
      else if size f =? 0 then
        {| isValid := false; error := Some (lit "File appears to be empty") |}
      else {| isValid := true; error := None |}
  end.

(** The rules of the validation gate as the specification lists them: each
    rule is the test that a descriptor breaks it, with its rejection reason;
    the first broken rule decides. *)
Definition spec_rules : list ((option File -> bool) * jsstring) :=
  [ (fun file => match file with None => true | Some _ => false end,
     lit "No file provided");
    (fun file => match file with
                 | Some f => negb (JS.eqb (type f) (lit "application/pdf"))
                 | None => false
                 end,
     lit "File must be a PDF document");
    (fun file => match file with
                 | Some f => negb (size f <=? 52428800)
                 | None => false
                 end,
     lit "File size must be less than 50MB");
    (fun file => match file with
                 | Some f => negb (0 <? size f)
                 | None => false
                 end,
     lit "File appears to be empty") ].

Fixpoint spec_first_failing (rules : list ((option File -> bool) * jsstring))
    (file : option File) : Validation :=
  match rules with
  | [] => {| isValid := true; error := None |}
  | (broken, reason) :: rest =>
      if broken file then {| isValid := false; error := Some reason |}
      else spec_first_failing rest file
  end.

(* ===================================================================== *)
(** ** The fragment source and the outcomes of its calls *)
(* ===================================================================== *)

(** What an awaited call comes to: a value, or an exception with its
    message (a rejected promise). *)
Inductive Outcome (A : Type) : Type :=
| Returns (a : A)
| Throws (message : jsstring).

Arguments Returns {A} a.
Arguments Throws {A} message.

Record PDFPage : Type := {
  getTextContent : Outcome TextContent
}.

Record Info : Type := {
  Title : option jsstring;
  Author : option jsstring;
  Subject : option jsstring;
  Creator : option jsstring;
  Producer : option jsstring;
  CreationDate : option jsstring;
  ModDate : option jsstring
}.

Record PDFDocument : Type := {
  numPages : nat;
  getPage : nat -> Outcome PDFPage;
  getMetadata : Outcome (option Info)
}.

(** The collaborators of the entry points: reading the bytes of a file and
    opening them as a document. *)
Record Environment : Type := {
  fileToArrayBuffer : File -> Outcome (list N);
  getDocument : list N -> Outcome PDFDocument
}.

(** [await pdfDocument.getPage(pageNum)] followed by
    [await page.getTextContent()]. *)
Definition fetchTextContent (pdfDocument : PDFDocument) (pageNum : nat)
  : Outcome TextContent :=
  match getPage pdfDocument pageNum with
  | Returns page => getTextContent page
  | Throws m => Throws m
  end.

(* ===================================================================== *)
(** ** [extractDetailedTextFromPDF] and [extractTextFromPDF] *)
(* ===================================================================== *)

Module PageInfo.
Record t : Type := {
  pageNumber : nat;
  text : jsstring;
  characterCount : nat
}.
End PageInfo.

Record Metadata : Type := {
  pageCount : nat;
  title : option jsstring;
  author : option jsstring;
  subject : option jsstring;
  creator : option jsstring;
  producer : option jsstring;
  creationDate : option jsstring;
  modificationDate : option jsstring
}.

Module ExtractedTextData.
Record t : Type := {
  text : jsstring;
  metadata : option Metadata;
  pages : list PageInfo.t
}.
End ExtractedTextData.

(** [info?.Field || undefined] *)
Definition fieldOrUndefined (info : option Info)
    (field : Info -> option jsstring) : option jsstring :=
  match info with
  | None => None
  | Some i =>
      match field i with
      | Some s => if truthy s then Some s else None
      | None => None
      end
  end.

Definition readMetadata (pdfDocument : PDFDocument) : Metadata :=
  match getMetadata pdfDocument with
  | Returns info =>
      {| pageCount := numPages pdfDocument;
         title := fieldOrUndefined info Title;
         author := fieldOrUndefined info Author;
         subject := fieldOrUndefined info Subject;
         creator := fieldOrUndefined info Creator;
         producer := fieldOrUndefined info Producer;
         creationDate := fieldOrUndefined info CreationDate;
         modificationDate := fieldOrUndefined info ModDate |}
  | Throws _ =>
      {| pageCount := numPages pdfDocument;
         title := None; author := None; subject := None; creator := None;
         producer := None; creationDate := None; modificationDate := None |}
  end.

(** ['\n\n--- Page ' + pageNum + ' ---\n\n'] *)
Definition pageSeparator (pageNum : nat) : jsstring :=
  [NL; NL] ++ lit "--- Page " ++ ofNat pageNum ++ lit " ---" ++ [NL; NL].

(** [`[Error extracting text from page ${pageNum}]`] *)
Definition errorPlaceholder (pageNum : nat) : jsstring :=
  lit "[Error extracting text from page " ++ ofNat pageNum ++ lit "]".

(** The two statements that extend [fullText] with a page: the separator
    under its guard, then the page text. *)
Definition appendPage (pageNum : nat) (pageText fullText : jsstring)
  : jsstring :=
  let fullText1 :=
    if (1 <? pageNum)%nat && truthy (trim pageText)
    then fullText ++ pageSeparator pageNum
    else fullText in
  fullText1 ++ pageText.

(** The body of the page loop of the detailed extraction, with its
    [try]/[catch], on the loop variables [pages] and [fullText]. *)
Definition detailedPage (options : TextExtractionOptions)
    (pdfDocument : PDFDocument) (pageNum : nat)
    (st : list PageInfo.t * jsstring) : list PageInfo.t * jsstring :=
  let (pages, fullText) := st in
  match fetchTextContent pdfDocument pageNum with
  | Returns textContent =>
      let pageText := processTextContent textContent options in
      (pages ++ [ {| PageInfo.pageNumber := pageNum;
                     PageInfo.text := pageText;
                     PageInfo.characterCount := length pageText |} ],
       appendPage pageNum pageText fullText)
  | Throws _ =>
      (pages ++ [ {| PageInfo.pageNumber := pageNum;
                     PageInfo.text := errorPlaceholder pageNum;
                     PageInfo.characterCount := 0%nat |} ],
       fullText)
  end.

(** [for (pageNum = first; pageNum <= numPages; pageNum++)], with
    [remaining] the number of turns left. *)
Fixpoint detailedLoop (options : TextExtractionOptions)
    (pdfDocument : PDFDocument) (remaining pageNum : nat)
    (st : list PageInfo.t * jsstring) : list PageInfo.t * jsstring :=
  match remaining with
  | O => st
  | S k =>
      detailedLoop options pdfDocument k (S pageNum)
        (detailedPage options pdfDocument pageNum st)
  end.

Definition extractDetailedTextFromPDF (env : Environment) (file : File)
    (options : TextExtractionOptions) : Outcome ExtractedTextData.t :=
  let failed m := Throws (lit "PDF processing failed: " ++ m) in
  match fileToArrayBuffer env file with
  | Throws m => failed m
  | Returns arrayBuffer =>
      match getDocument env arrayBuffer with
      | Throws m => failed m
      | Returns pdfDocument =>
          let metadata :=
            if includeMetadata options then Some (readMetadata pdfDocument)
            else None in
          let (pages, fullText) :=
            detailedLoop options pdfDocument (numPages pdfDocument) 1%nat
              ([], []) in
          Returns {| ExtractedTextData.text := trim fullText;
                     ExtractedTextData.metadata := metadata;
                     ExtractedTextData.pages := pages |}
      end
  end.

Definition extractTextFromPDF (env : Environment) (file : File)
    (options : TextExtractionOptions) : Outcome jsstring :=
  match extractDetailedTextFromPDF env file options with
  | Returns extractedData => Returns (ExtractedTextData.text extractedData)
  | Throws _ =>
      Throws (lit "Failed to extract text from PDF. Please ensure the file is a valid PDF document.")
  end.

(* ===================================================================== *)
(** ** [extractTextWithProgress] *)
(* ===================================================================== *)

(** One call [onProgress(progress, status)]. *)
Definition ProgressCall : Type := Q * jsstring.

(** A computation that may throw and that reports its progress: it extends
    the log of the calls made so far. *)
Definition Task (A : Type) : Type :=
  list ProgressCall -> Outcome A * list ProgressCall.

Definition ret {A : Type} (a : A) : Task A := fun log => (Returns a, log).

Definition throw {A : Type} (m : jsstring) : Task A :=
  fun log => (Throws m, log).

Definition bind {A B : Type} (c : Task A) (k : A -> Task B) : Task B :=
  fun log =>
    match c log with
    | (Returns a, log') => k a log'
    | (Throws m, log') => (Throws m, log')
    end.

Definition await {A : Type} (o : Outcome A) : Task A := fun log => (o, log).

Definition tryCatch {A : Type} (c : Task A) (handler : jsstring -> Task A)
  : Task A :=
  fun log =>
    match c log with
    | (Returns a, log') => (Returns a, log')
    | (Throws m, log') => handler m log'
    end.

(** [onProgress?.(progress, status)]: a call when the callback is there. *)
Definition report (onProgress : bool) (progress : Q) (status : jsstring)
  : Task unit :=
  fun log => (Returns tt, if onProgress then log ++ [(progress, status)] else log).

Declare Scope task_scope.
Delimit Scope task_scope with task.
Notation "x <- c ;; k" := (bind c (fun x => k))
  (at level 61, c at next level, right associativity) : task_scope.
Notation "c ;; k" := (bind c (fun _ => k))
  (at level 61, right associativity) : task_scope.

Definition ofPage (n : nat) : Q := inject_Z (Z.of_nat n).

(** [40 + (pageNum / totalPages) * 50] *)
Definition pageProgress (pageNum totalPages : nat) : Q :=
  (40 + (ofPage pageNum / ofPage totalPages) * 50)%Q.

(** [for (pageNum = first; pageNum <= totalPages; pageNum++)] of the
    progress-observed extraction; no [try] surrounds its body. *)
Fixpoint progressLoop (onProgress : bool) (options : TextExtractionOptions)
    (pdfDocument : PDFDocument) (totalPages remaining pageNum : nat)
    (fullText : jsstring) : Task jsstring :=
  match remaining with
  | O => ret fullText
  | S k =>
      (textContent <- await (fetchTextContent pdfDocument pageNum) ;;
       let pageText := processTextContent textContent options in
       let fullText' := appendPage pageNum pageText fullText in
       report onProgress (pageProgress pageNum totalPages)
         (lit "Processed page " ++ ofNat pageNum ++ lit " of "
            ++ ofNat totalPages) ;;
       progressLoop onProgress options pdfDocument totalPages k (S pageNum)
         fullText')%task
  end.

(** [options || { preserveFormatting: true, includeMetadata: true,
    combineTextItems: true }] *)
Definition optionsOrDefault (options : option TextExtractionOptions)
  : TextExtractionOptions :=
  match options with
  | Some o => o
  | None => defaultOptions
  end.

Definition extractTextWithProgress (env : Environment) (file : option File)
    (onProgress : bool) (options : option TextExtractionOptions)
  : Task jsstring :=
  tryCatch
    (report onProgress 10 (lit "Validating PDF file...") ;;
     let validation := validatePDFFile file in
     match isValid validation, file with
     | true, Some f =>
         report onProgress 20 (lit "Loading PDF document...") ;;
         arrayBuffer <- await (fileToArrayBuffer env f) ;;
         report onProgress 30 (lit "Parsing PDF structure...") ;;
         pdfDocument <- await (getDocument env arrayBuffer) ;;
         report onProgress 40
           (lit "Processing " ++ ofNat (numPages pdfDocument) ++ lit " pages...") ;;
         let totalPages := numPages pdfDocument in
         fullText <- progressLoop onProgress (optionsOrDefault options)
                       pdfDocument totalPages totalPages 1%nat [] ;;
         report onProgress 95 (lit "Finalizing text extraction...") ;;
         let finalText := trim fullText in
         report onProgress 100 (lit "Text extraction completed") ;;
         ret finalText
     | _, _ =>
         throw (match error validation with Some m => m | None => [] end)
     end)%task
    (fun m => throw (lit "PDF text extraction failed: " ++ m)).

(** The progress values of a log, in the order of the calls. *)
Definition percents (log : list ProgressCall) : list Q := map fst log.

(* ===================================================================== *)
(** ** The upload component: [processFiles] *)
(* ===================================================================== *)

(** A file as the browser hands it to the component: [file.name], and the
    descriptor ([file.type], [file.size]) that the validation gate reads. *)
Record UploadedFile : Type := {
  name : jsstring;
  descriptor : File
}.

Module ProcessedFile.
Record t : Type := {
  name : jsstring;
  extractedText : jsstring;
  originalFile : UploadedFile;
  processingTime : Z
}.
End ProcessedFile.

(** [${validation.error}] in a template literal. *)
Definition validationError (validation : Validation) : jsstring :=
  match error validation with
  | Some reason => reason
  | None => lit "undefined"
  end.

Module FileUpload.

(** The state variables of the component that [processFiles] sets. *)
Record state : Type := {
  error : option jsstring;
  isProcessing : bool;
  processingProgress : Q;
  processingStatus : jsstring;
  currentFileName : jsstring
}.

Definition setError (e : option jsstring) (st : state) : state :=
  {| error := e; isProcessing := isProcessing st;
     processingProgress := processingProgress st;
     processingStatus := processingStatus st;
     currentFileName := currentFileName st |}.

Definition setIsProcessing (b : bool) (st : state) : state :=
  {| error := error st; isProcessing := b;
     processingProgress := processingProgress st;
     processingStatus := processingStatus st;
     currentFileName := currentFileName st |}.

Definition setProcessingProgress (q : Q) (st : state) : state :=
  {| error := error st; isProcessing := isProcessing st;
     processingProgress := q;
     processingStatus := processingStatus st;
     currentFileName := currentFileName st |}.

Definition setProcessingStatus (s : jsstring) (st : state) : state :=
  {| error := error st; isProcessing := isProcessing st;
     processingProgress := processingProgress st;
     processingStatus := s;
     currentFileName := currentFileName st |}.

Definition setCurrentFileName (s : jsstring) (st : state) : state :=
  {| error := error st; isProcessing := isProcessing st;
     processingProgress := processingProgress st;
     processingStatus := processingStatus st;
     currentFileName := s |}.

(** The state of the component together with the values that
    [setProcessingProgress] has been called with, in order. *)
Definition screen : Type := state * list Q.

(** [file.type === 'application/pdf'] *)
Definition isPdf (file : UploadedFile) : bool :=
  JS.eqb (type (descriptor file)) (lit "application/pdf").

(** [(i / pdfFiles.length) * 100 + (progress / pdfFiles.length)]. The
    expression is evaluated in floating point: each of its four operations
    yields the rounding [round] of its exact result, so that the sum of the
    last file of six, [(5 / 6) * 100 + (100 / 6)], need not be 100. *)
Definition fileProgress (round : Q -> Q) (i n : nat) (progress : Q) : Q :=
  round (round (round (ofPage i / ofPage n) * 100)
         + round (progress / ofPage n))%Q.

(** The callback that [processFiles] passes to [extractTextWithProgress]
    for the file at index [i] of [n]. *)
Definition onProgress (round : Q -> Q) (i n : nat) (file : UploadedFile)
    (ui : screen) (call : ProgressCall) : screen :=
  let (progress, status) := call in
  (setProcessingStatus (name file ++ lit ": " ++ status)
     (setProcessingProgress (fileProgress round i n progress) (fst ui)),
   snd ui ++ [fileProgress round i n progress]).

(** The first file that the validation gate rejects, with the verdict. *)
Fixpoint firstInvalid (files : list UploadedFile)
  : option (UploadedFile * Validation) :=
  match files with
  | [] => None
  | file :: rest =>
      let validation := validatePDFFile (Some (descriptor file)) in
      if negb (isValid validation) then Some (file, validation)
      else firstInvalid rest
  end.

(** [for (let i = first; i < pdfFiles.length; i++)]: [n] is
    [pdfFiles.length], [rest] the files from index [i] on, [tick] the
    number of readings of [Date.now()] so far. The result is [None] after
    the [return] of the inner [catch]. *)
Fixpoint processLoop (round : Q -> Q) (world : UploadedFile -> Environment)
    (now : nat -> Z) (n i tick : nat) (rest : list UploadedFile)
    (processedFiles : list ProcessedFile.t) (ui : screen)
  : screen * option (list ProcessedFile.t) :=
  match rest with
  | [] => (ui, Some processedFiles)
  | file :: rest' =>
      let ui1 := (setCurrentFileName (name file) (fst ui), snd ui) in
      let startTime := now tick in
      let (outcome, log) :=
        extractTextWithProgress (world file) (Some (descriptor file)) true
          None [] in
      let ui2 := fold_left (onProgress round i n file) log ui1 in
      match outcome with
      | Returns text =>
          let processingTime := (now (S tick) - startTime)%Z in
          processLoop round world now n (S i) (S (S tick)) rest'
            (processedFiles
               ++ [ {| ProcessedFile.name := name file;
                       ProcessedFile.extractedText := text;
                       ProcessedFile.originalFile := file;
                       ProcessedFile.processingTime := processingTime |} ])
            ui2
      | Throws message =>
          ((setIsProcessing false
              (setError
                 (Some (lit "Failed to process " ++ name file ++ lit ": "
                          ++ message))
                 (fst ui2)),
            snd ui2),
           None)
      end
  end.

(** [processFiles(files)]: the state of the component afterwards, the
    values the progress bar was set to, and the argument of
    [onFilesProcessed] when it was called. *)
Definition processFiles (round : Q -> Q) (world : UploadedFile -> Environment)
    (now : nat -> Z) (files : list UploadedFile) (st : state)
  : screen * option (list ProcessedFile.t) :=
  let pdfFiles := filter isPdf files in
  if (length pdfFiles =? 0)%nat then
    ((setError (Some (lit "Please select valid PDF files only.")) st, []), None)
  else if (10 <? length pdfFiles)%nat then
    ((setError (Some (lit "Maximum 10 files allowed at once.")) st, []), None)
  else
    match firstInvalid pdfFiles with
    | Some (file, validation) =>
        ((setError (Some (name file ++ lit ": " ++ validationError validation))
            st, []), None)
    | None =>
        let st1 :=
          setProcessingStatus (lit "Starting PDF processing...")
            (setProcessingProgress 0
               (setIsProcessing true (setError None st))) in
        let (ui, delivered) :=
          processLoop round world now (length pdfFiles) 0 0 pdfFiles []
            (st1, [0%Q]) in
        let st2 :=
          match delivered with
          | Some _ =>
              setProcessingStatus (lit "All files processed successfully!")
                (fst ui)
          | None => fst ui
          end in
        ((setCurrentFileName []
            (setProcessingStatus []
               (setProcessingProgress 0 (setIsProcessing false st2))),
          snd ui ++ [0%Q]),
         delivered)
    end.

End FileUpload.

(* ===================================================================== *)
(** ** The statistics of the text editor *)
(* ===================================================================== *)

(** [s.split(/re/)]: [piece] is the part of the string from the end of
    the last separator to the current position. A match that is not empty
    ends the piece and the scan resumes after it; an empty match ends the
    piece too unless the piece is empty; in each other case the scan moves
    on by one character. *)
Fixpoint splitRegex_fuel (fuel : nat) (re : regex) (piece s : jsstring)
  : list jsstring :=
  match fuel with
  | O => [piece ++ s]
  | S fuel' =>
      match s with
      | [] => [piece]
      | c :: r =>
          match re_match re s with
          | Some rest =>
              if (length rest <? length s)%nat
              then piece :: splitRegex_fuel fuel' re [] rest
              else match piece with
                   | [] => splitRegex_fuel fuel' re [c] r
                   | _ :: _ => piece :: splitRegex_fuel fuel' re [c] r
                   end
          | None => splitRegex_fuel fuel' re (piece ++ [c]) r
          end
      end
  end.

Definition splitRegex (re : regex) (s : jsstring) : list jsstring :=
  match s with
  | [] =>
      match re_match re [] with
      | Some _ => []
      | None => [[]]
      end
  | _ :: _ => splitRegex_fuel (S (length s)) re [] s
  end.

(** [/\s+/] *)
Definition re_whitespace : regex := [One isWhiteSpace; Star isWhiteSpace].

(** [text.trim().split(/\s+/).filter(word => word.length > 0).length] *)
Definition wordCount (text : jsstring) : nat :=
  length (filter (fun word => (0 <? length word)%nat)
            (splitRegex re_whitespace (trim text))).

(* ===================================================================== *)
(** ** Notions used by the proofs *)
(* ===================================================================== *)

(** A pattern that never matches the empty string. *)
Definition consuming (re : regex) : Prop :=
  forall s rest, re_match re s = Some rest -> (length rest < length s)%nat.

(** The number of line breaks in the run of whitespace that starts [s]. *)
Fixpoint leadingNewlines (s : jsstring) : nat :=
  match s with
  | [] => 0%nat
  | c :: r =>
      if isWhiteSpace c
      then ((if isNewline c then 1 else 0) + leadingNewlines r)%nat
      else 0%nat
  end.

Definition startsWithSpaceOrTab (s : jsstring) : bool :=
  match s with
  | [] => false
  | c :: _ => isSpaceOrTab c
  end.

(** No tab, and no space followed by a space or a tab. *)
Fixpoint spacesCollapsed (s : jsstring) : Prop :=
  match s with
  | [] => True
  | c :: r =>
      (isSpaceOrTab c = true -> c = SP /\ startsWithSpaceOrTab r = false)
      /\ spacesCollapsed r
  end.

(** No line break followed, through whitespace only, by two more. *)
Fixpoint blankLinesCollapsed (s : jsstring) : Prop :=
  match s with
  | [] => True
  | c :: r =>
      (isNewline c = true -> (leadingNewlines r <= 1)%nat)
      /\ blankLinesCollapsed r
  end.

(** [strips s t]: [t] is [s] with some whitespace characters deleted. *)
Inductive strips : jsstring -> jsstring -> Prop :=
| strips_nil : strips [] []
| strips_keep c s t : strips s t -> strips (c :: s) (c :: t)
| strips_drop c s t : isWhiteSpace c = true -> strips s t -> strips (c :: s) t.

Definition startsClean (s : jsstring) : Prop :=
  match s with
  | [] => True
  | c :: _ => isWhiteSpace c = false
  end.

(** A line as [trimLines] leaves it: no line break in it, no whitespace at
    either end. *)
Definition cleanLine (l : jsstring) : Prop :=
  Forall (fun c => isNewline c = false) l /\ startsClean l /\ trimEnd l = l.

(** A string whose lines are all clean. *)
Definition linesTrimmed (s : jsstring) : Prop :=
  exists ls, s = join NL ls /\ Forall cleanLine ls.

(** What both entry points should leave in [fullText], following the
    specification: each page that was read contributes its text, preceded
    by the page-boundary marker when it is not the first page and its text
    is not blank; a page that failed contributes nothing. *)
Definition spec_marker (pageNum : nat) : jsstring :=
  [10; 10] ++ lit "--- Page " ++ ofNat pageNum ++ lit " ---" ++ [10; 10].

Definition spec_contribution (options : TextExtractionOptions)
    (pdfDocument : PDFDocument) (pageNum : nat) : jsstring :=
  match fetchTextContent pdfDocument pageNum with
  | Throws _ => []
  | Returns textContent =>
      let pageText := processTextContent textContent options in
      match pageNum, trim pageText with
      | 1%nat, _ => pageText
      | _, [] => pageText
      | _, _ :: _ => spec_marker pageNum ++ pageText
      end
  end.

Definition spec_fullText (options : TextExtractionOptions)
    (pdfDocument : PDFDocument) : jsstring :=
  concat (map (spec_contribution options pdfDocument)
              (seq 1 (numPages pdfDocument))).

(** The entry that a page leaves in [pages]. *)
Definition pageEntry (options : TextExtractionOptions)
    (pdfDocument : PDFDocument) (pageNum : nat) : PageInfo.t :=
  match fetchTextContent pdfDocument pageNum with
  | Returns textContent =>
      let pageText := processTextContent textContent options in
      {| PageInfo.pageNumber := pageNum; PageInfo.text := pageText;
         PageInfo.characterCount := length pageText |}
  | Throws _ =>
      {| PageInfo.pageNumber := pageNum;
         PageInfo.text := errorPlaceholder pageNum;
         PageInfo.characterCount := 0%nat |}
  end.

(** The document that differs from [pdfDocument] only in that the pages
    that fail to load are pages without text content. *)
Definition withoutFailedPages (pdfDocument : PDFDocument) : PDFDocument :=
  {| numPages := numPages pdfDocument;
     getPage := fun pageNum =>
       match fetchTextContent pdfDocument pageNum with
       | Throws _ => Returns {| getTextContent := Returns None |}
       | Returns _ => getPage pdfDocument pageNum
       end;
     getMetadata := getMetadata pdfDocument |}.

(** A list of numbers in which each one is below the next. *)
Fixpoint strictlyIncreasing (l : list Q) : Prop :=
  match l with
  | [] => True
  | a :: r =>
      match r with
      | [] => True
      | b :: _ => (a < b)%Q /\ strictlyIncreasing r
      end
  end.

(** What [extractTextWithProgress] comes to as [processFiles] calls it for
    [file]. *)
Definition extractionOf (world : UploadedFile -> Environment)
    (file : UploadedFile) : Outcome jsstring :=
  fst (extractTextWithProgress (world file) (Some (descriptor file)) true
         None []).

(** The progress values that [extractTextWithProgress] reports as
    [processFiles] calls it for [file], in order. *)
Definition progressOf (world : UploadedFile -> Environment)
    (file : UploadedFile) : list Q :=
  percents (snd (extractTextWithProgress (world file) (Some (descriptor file))
                   true None [])).

(** The files of a batch that the loop of [processFiles] gets to: all of
    them up to the first whose extraction fails, that one included. *)
Fixpoint attempted (world : UploadedFile -> Environment)
    (files : list UploadedFile) : list UploadedFile :=
  match files with
  | [] => []
  | file :: rest =>
      match extractionOf world file with
      | Returns _ => file :: attempted world rest
      | Throws _ => [file]
      end
  end.

(** A list of numbers in which none is above the next. *)
Fixpoint nonDecreasing (l : list Q) : Prop :=
  match l with
  | [] => True
  | a :: r =>
      match r with
      | [] => True
      | b :: _ => (a <= b)%Q /\ nonDecreasing r
      end
  end.

(** What the proofs need of the rounding of the number format: it keeps
    the order, and on the numbers from -1 to 200 it is off by a thousandth
    at most. Rounding to the nearest double is off by less than 2^-45
    there; exact arithmetic is not off at all. *)
Definition monotoneRounding (round : Q -> Q) : Prop :=
  forall x y, (x <= y)%Q -> (round x <= round y)%Q.

Definition accurateRounding (round : Q -> Q) : Prop :=
  forall x, (-1 <= x)%Q -> (x <= 200)%Q ->
            (x - (1 # 1000) <= round x)%Q /\ (round x <= x + (1 # 1000))%Q.

Definition exactArithmetic (x : Q) : Q := x.

(** The contributions of [count] pages from page [first] on, one after
    the other. *)
Definition spec_textOfPages (options : TextExtractionOptions)
    (pdfDocument : PDFDocument) (first count : nat) : jsstring :=
  concat (map (spec_contribution options pdfDocument) (seq first count)).

(** An entry of the delivered list that goes with its file: the name of
    the file, and the text that the extraction of the file resolves with. *)
Definition faithfulEntryOf (world : UploadedFile -> Environment)
    (entry : ProcessedFile.t) : Prop :=
  ProcessedFile.name entry = name (ProcessedFile.originalFile entry)
  /\ extractionOf world (ProcessedFile.originalFile entry)
     = Returns (ProcessedFile.extractedText entry).

(* ===================================================================== *)
(** ** Sample inputs *)
(* ===================================================================== *)

Module Sample.

(** Scenario A: two fragments on one line, one unit apart. *)
Definition hello : TextItem :=
  {| str := lit "Hello"; transform4 := 0; transform5 := 100;
     width := Some 10%Q |}.

Definition world (w : option Q) : TextItem :=
  {| str := lit "World"; transform4 := 11; transform5 := 100; width := w |}.

(** Scenario B: two fragments thirty units apart vertically. *)
Definition line1 : TextItem :=
{| str := lit "Line1"; transform4 := 0; transform5 := 100;
   width := Some 30%Q |}.

Definition line2 : TextItem :=
{| str := lit "Line2"; transform4 := 0; transform5 := 130;
   width := Some 30%Q |}.

Definition blank : TextItem :=
  {| str := [SP; TAB; SP]; transform4 := 500; transform5 := 700;
     width := Some 3%Q |}.

Definition pdf : File := {| type := lit "application/pdf"; size := 2048 |}.

Definition hugeTextFile : File :=
  {| type := lit "text/plain"; size := 60000000 |}.

Definition pageOf (s : String.string) : Outcome PDFPage :=
  Returns {| getTextContent :=
    Returns (Some [ {| str := lit s; transform4 := 0; transform5 := 0;
                       width := None |} ]) |}.

(** Three pages; the second one cannot be read. *)
Definition threePages : PDFDocument :=
  {| numPages := 3;
     getPage := fun pageNum =>
       match pageNum with
       | 1%nat => pageOf "one"
       | 2%nat => Throws (lit "page unreadable")
       | _ => pageOf "three"
       end;
     getMetadata := Throws (lit "no metadata") |}.

(** Two pages, both readable. *)
Definition twoPages : PDFDocument :=
  {| numPages := 2;
     getPage := fun pageNum =>
       match pageNum with
       | 1%nat => pageOf "one"
       | _ => pageOf "two"
       end;
     getMetadata := Returns None |}.

(** Two pages; the first one has no text. *)
Definition blankFirst : PDFDocument :=
  {| numPages := 2;
     getPage := fun pageNum =>
       match pageNum with
       | 1%nat => Returns {| getTextContent := Returns (Some []) |}
       | _ => pageOf "two"
       end;
     getMetadata := Returns None |}.

(** One page, which cannot be read. *)
Definition brokenPage : PDFDocument :=
  {| numPages := 1;
     getPage := fun _ => Throws (lit "page unreadable");
     getMetadata := Returns None |}.

Definition opening (pdfDocument : PDFDocument) : Environment :=
  {| fileToArrayBuffer := fun _ => Returns [];
     getDocument := fun _ => Returns pdfDocument |}.

(** A batch: two PDF files, a text file and an empty PDF file. *)
Definition report : UploadedFile :=
  {| name := lit "report.pdf"; descriptor := pdf |}.

Definition notes : UploadedFile :=
  {| name := lit "notes.pdf";
     descriptor := {| type := lit "application/pdf"; size := 4096 |} |}.

Definition readme : UploadedFile :=
  {| name := lit "readme.txt";
     descriptor := {| type := lit "text/plain"; size := 100 |} |}.

Definition emptyPdf : UploadedFile :=
  {| name := lit "empty.pdf";
     descriptor := {| type := lit "application/pdf"; size := 0 |} |}.

(** Every file of the batch opens as the two-page document. *)
Definition library (file : UploadedFile) : Environment := opening twoPages.

(** [Date.now()] advances by five at each reading. *)
Definition clock (tick : nat) : Z := (1000 + 5 * Z.of_nat tick)%Z.

Definition idle : FileUpload.state :=
  {| FileUpload.error := None; FileUpload.isProcessing := false;
     FileUpload.processingProgress := 0; FileUpload.processingStatus := [];
     FileUpload.currentFileName := [] |}.

End Sample.

(* ===================================================================== *)
(** ** Words *)
(* ===================================================================== *)

(** The pieces of [s] between its whitespace characters, empty ones
    included. *)
Fixpoint runs (s : jsstring) : list jsstring :=
  match s with
  | [] => [[]]
  | c :: r =>
      if isWhiteSpace c then [] :: runs r
      else match runs r with
           | w :: ws => (c :: w) :: ws
           | [] => [[c]]
           end
  end.

(** The words of [s]: its maximal runs of characters that are not
    whitespace, in order. *)
Definition words (s : jsstring) : list jsstring := filter truthy (runs s).

(** What a string shows of its words to a character put in front of it:
    the run it starts with, and the words after that run. *)
Definition shape (s : jsstring) : jsstring * list jsstring :=
  (hd [] (runs s), filter truthy (tl (runs s))).

Definition notWhiteSpace (c : char) : bool := negb (isWhiteSpace c).

(** A pattern all of whose character classes are classes of whitespace. *)
Definition wsOnly (re : regex) : Prop :=
  Forall (fun a =>
            match a with
            | One p | Star p => forall c, p c = true -> isWhiteSpace c = true
            end) re.

(** The least number of characters that a match of [re] consumes. *)
Fixpoint minLength (re : regex) : nat :=
  match re with
  | [] => 0%nat
  | One _ :: k => S (minLength k)
  | Star _ :: k => minLength k
  end.

(** No whitespace at either end. *)
Definition noOuterSpace (l : jsstring) : Prop :=
  (forall c r, l = c :: r -> isWhiteSpace c = false)
  /\ (forall r c, l = r ++ [c] -> isWhiteSpace c = false).

(* ===================================================================== *)
(** ** Facts about strings *)
(* ===================================================================== *)

Section StringFacts.

Lemma newline_is_whitespace c : isNewline c = true -> isWhiteSpace c = true.
Proof.
  unfold isNewline. intros H. apply N.eqb_eq in H. subst c. reflexivity.
Qed.

Lemma newline_is_NL c : isNewline c = true -> c = NL.
Proof. unfold isNewline. intros H. now apply N.eqb_eq in H. Qed.

Lemma newline_not_space_or_tab c :
  isNewline c = true -> isSpaceOrTab c = false.
Proof. intros H. apply newline_is_NL in H. subst c. reflexivity. Qed.

Lemma strips_refl s : strips s s.
Proof. induction s; constructor; assumption. Qed.

Lemma strips_trans s t u : strips s t -> strips t u -> strips s u.
Proof.
  intros H. revert u.
  induction H as [| c s t _ IH | c s t Hc _ IH]; intros u Hu.
  - assumption.
  - inversion Hu; subst.
    + apply strips_keep. now apply IH.
    + apply strips_drop; [assumption | now apply IH].
  - apply strips_drop; [assumption | now apply IH].
Qed.

Lemma strips_app a a' b b' :
  strips a a' -> strips b b' -> strips (a ++ b) (a' ++ b').
Proof.
  intros Ha Hb. induction Ha; simpl.
  - assumption.
  - now apply strips_keep.
  - now apply strips_drop.
Qed.

Lemma strips_length s t : strips s t -> (length t <= length s)%nat.
Proof. induction 1; simpl; lia. Qed.

Lemma strips_Forall (P : char -> Prop) s t :
  strips s t -> Forall P s -> Forall P t.
Proof.
  induction 1; intros HP.
  - constructor.
  - inversion HP; subst. constructor; auto.
  - inversion HP; subst. auto.
Qed.

Lemma strips_trimStart s : strips s (trimStart s).
Proof.
  unfold trimStart. induction s as [| c r IH]; simpl.
  - constructor.
  - destruct (isWhiteSpace c) eqn:E.
    + now apply strips_drop.
    + apply strips_refl.
Qed.

Lemma strips_trimEnd s : strips s (trimEnd s).
Proof.
  induction s as [| c r IH]; simpl.
  - constructor.
  - destruct (trimEnd r) as [| d r'] eqn:E.
    + destruct (isWhiteSpace c) eqn:Ec.
      * now apply strips_drop.
      * now apply strips_keep.
    + now apply strips_keep.
Qed.

Lemma strips_trim s : strips s (trim s).
Proof.
  unfold trim. eapply strips_trans; [apply strips_trimStart |].
  apply strips_trimEnd.
Qed.

(** *** Trimming *)

Lemma startsClean_trimStart s : startsClean (trimStart s).
Proof.
  unfold trimStart. induction s as [| c r IH]; simpl.
  - exact I.
  - destruct (isWhiteSpace c) eqn:E; [assumption | exact E].
Qed.

Lemma trimStart_clean s : startsClean s -> trimStart s = s.
Proof.
  destruct s as [| c r]; unfold trimStart; simpl; [reflexivity |].
  intros ->. reflexivity.
Qed.

Lemma trimEnd_head c r d r' : trimEnd (c :: r) = d :: r' -> d = c.
Proof.
  simpl. destruct (trimEnd r).
  - destruct (isWhiteSpace c); [discriminate | now intros [= <- _]].
  - now intros [= <- _].
Qed.

Lemma startsClean_trimEnd s : startsClean s -> startsClean (trimEnd s).
Proof.
  destruct s as [| c r]; [exact (fun H => H) |].
  intros H. destruct (trimEnd (c :: r)) as [| d r'] eqn:E; [exact I |].
  apply trimEnd_head in E. subst d. exact H.
Qed.

Lemma trimEnd_idem s : trimEnd (trimEnd s) = trimEnd s.
Proof.
  induction s as [| c r IH]; simpl; [reflexivity |].
  destruct (trimEnd r) as [| d r'] eqn:E.
  - destruct (isWhiteSpace c) eqn:Ec; simpl; [reflexivity |].
    now rewrite Ec.
  - change (trimEnd (c :: d :: r')) with
      (match trimEnd (d :: r') with
       | [] => if isWhiteSpace c then [] else [c]
       | x => c :: x
       end).
    rewrite IH. reflexivity.
Qed.

Lemma trim_idem s : trim (trim s) = trim s.
Proof.
  unfold trim.
  rewrite (trimStart_clean (trimEnd (trimStart s))).
  - apply trimEnd_idem.
  - apply startsClean_trimEnd, startsClean_trimStart.
Qed.

Lemma trimEnd_app a b :
  trimEnd (a ++ b) =
  match trimEnd b with
  | [] => trimEnd a
  | _ :: _ => a ++ trimEnd b
  end.
Proof.
  induction a as [| c a IH]; simpl.
  - destruct (trimEnd b); reflexivity.
  - rewrite IH. destruct (trimEnd b) as [| d b'] eqn:E; [reflexivity |].
    destruct (a ++ d :: b') eqn:E'; [| reflexivity].
    now destruct a.
Qed.

Lemma trimEnd_prefix s : exists w, s = trimEnd s ++ w.
Proof.
  induction s as [| c r [w Hw]]; simpl.
  - now exists [].
  - destruct (trimEnd r) as [| d r'] eqn:E.
    + destruct (isWhiteSpace c).
      * now exists (c :: r).
      * now exists r.
    + exists w. simpl. f_equal. assumption.
Qed.

Lemma trimStart_suffix s : exists w, s = w ++ trimStart s.
Proof.
  unfold trimStart. induction s as [| c r [w Hw]]; simpl.
  - now exists [].
  - destruct (isWhiteSpace c).
    + exists (c :: w). simpl. f_equal. assumption.
    + now exists [].
Qed.

(** *** Lines *)

Lemma split_not_nil sep s : split sep s <> [].
Proof.
  destruct s as [| c r]; simpl; [discriminate |].
  destruct (c =? sep); [discriminate |].
  destruct (split sep r); discriminate.
Qed.

Lemma join_cons sep l l' ls :
  join sep (l :: l' :: ls) = l ++ sep :: join sep (l' :: ls).
Proof. reflexivity. Qed.

Lemma join_split sep s : join sep (split sep s) = s.
Proof.
  induction s as [| c r IH]; simpl; [reflexivity |].
  destruct (N.eqb_spec c sep) as [-> | Hne].
  - destruct (split sep r) as [| l ls] eqn:E.
    + now apply split_not_nil in E.
    + rewrite join_cons. simpl. f_equal. assumption.
  - destruct (split sep r) as [| l ls] eqn:E.
    + now apply split_not_nil in E.
    + destruct ls as [| l' ls].
      * simpl in *. f_equal. assumption.
      * rewrite join_cons in *. simpl. f_equal. assumption.
Qed.

Lemma split_no_newline l :
  Forall (fun c => isNewline c = false) l -> split NL l = [l].
Proof.
  induction 1 as [| c l Hc _ IH]; simpl; [reflexivity |].
  unfold isNewline in Hc. change (c =? NL) with (c =? 10).
  rewrite Hc, IH. reflexivity.
Qed.

Lemma split_app_newline l r :
  Forall (fun c => isNewline c = false) l ->
  split NL (l ++ NL :: r) = l :: split NL r.
Proof.
  induction 1 as [| c l Hc _ IH]; simpl; [reflexivity |].
  unfold isNewline in Hc. change (c =? NL) with (c =? 10).
  rewrite Hc, IH. reflexivity.
Qed.

Lemma split_join ls :
  ls <> [] ->
  Forall (Forall (fun c => isNewline c = false)) ls ->
  split NL (join NL ls) = ls.
Proof.
  induction ls as [| l ls IH]; [congruence |].
  intros _ H. inversion H as [| ? ? Hl Hls]; subst.
  destruct ls as [| l' ls].
  - simpl. now apply split_no_newline.
  - rewrite join_cons, split_app_newline by assumption.
    f_equal. apply IH; [discriminate | assumption].
Qed.

Lemma split_lines_no_newline s :
  Forall (Forall (fun c => isNewline c = false)) (split NL s).
Proof.
  induction s as [| c r IH]; simpl.
  - repeat constructor.
  - destruct (N.eqb_spec c NL) as [-> | Hne].
    + constructor; [constructor | assumption].
    + destruct (split NL r) as [| l ls]; [repeat constructor |].
      * unfold isNewline. now apply N.eqb_neq.
      * inversion IH; subst. constructor; [| assumption].
        constructor; [| assumption].
        unfold isNewline. now apply N.eqb_neq.
Qed.

End StringFacts.

(* ===================================================================== *)
(** ** Facts about the matcher and the global replacement *)
(* ===================================================================== *)

Section RegexFacts.

Lemma greedy_suffix p k :
  (forall s rest, k s = Some rest -> exists pre, s = pre ++ rest) ->
  forall s rest, greedy p k s = Some rest -> exists pre, s = pre ++ rest.
Proof.
  intros Hk. induction s as [| c r IH]; simpl; intros rest H.
  - now apply Hk.
  - destruct (p c); [| now apply Hk].
    destruct (greedy p k r) as [x |] eqn:E; [| now apply Hk].
    injection H as <-. destruct (IH x eq_refl) as [pre ->].
    now exists (c :: pre).
Qed.

Lemma re_match_suffix re :
  forall s rest, re_match re s = Some rest -> exists pre, s = pre ++ rest.
Proof.
  induction re as [| a k IH]; simpl.
  - intros s rest [= <-]. now exists [].
  - destruct a as [p | p].
    + intros [| c r] rest H; [discriminate |].
      destruct (p c); [| discriminate].
      destruct (IH _ _ H) as [pre ->]. now exists (c :: pre).
    + now apply greedy_suffix.
Qed.

Lemma re_match_One p k c r :
  re_match (One p :: k) (c :: r) = if p c then re_match k r else None.
Proof. reflexivity. Qed.

Lemma re_match_Star p k s :
  re_match (Star p :: k) s = greedy p (re_match k) s.
Proof. reflexivity. Qed.

(** A pattern that starts with a character class consumes a character. *)
Lemma consuming_One p k : consuming (One p :: k).
Proof.
  intros [| c r] rest H; simpl in H; [discriminate |].
  destruct (p c); [| discriminate].
  apply re_match_suffix in H as [pre ->].
  simpl. rewrite length_app. lia.
Qed.

Section Replace.

Variables (re : regex) (repl : jsstring).
Hypothesis Hre : consuming re.

Lemma replaceAll_fuel_enough n m s :
  (length s < n)%nat -> (length s < m)%nat ->
  replaceAll_fuel n re repl s = replaceAll_fuel m re repl s.
Proof.
  revert m s. induction n as [| n IH]; intros m s Hn Hm; [lia |].
  destruct m as [| m]; [lia |].
  destruct s as [| c r]; [reflexivity |].
  cbn [replaceAll_fuel].
  destruct (re_match re (c :: r)) as [rest |] eqn:E.
  - pose proof (Hre _ _ E) as Hlt.
    apply Nat.ltb_lt in Hlt as Hb. rewrite Hb.
    f_equal. simpl in *. apply IH; lia.
  - f_equal. simpl in *. apply IH; lia.
Qed.

Lemma replaceAll_nil : replaceAll re repl [] = [].
Proof.
  unfold replaceAll. simpl.
  destruct (re_match re []) as [rest |] eqn:E; [| reflexivity].
  apply Hre in E. simpl in E. lia.
Qed.

Lemma replaceAll_fuel_step n c r :
  replaceAll_fuel (S n) re repl (c :: r) =
  match re_match re (c :: r) with
  | Some rest =>
      if (length rest <? length (c :: r))%nat
      then repl ++ replaceAll_fuel n re repl rest
      else repl ++ c :: replaceAll_fuel n re repl r
  | None => c :: replaceAll_fuel n re repl r
  end.
Proof. reflexivity. Qed.

Lemma replaceAll_cons c r :
  replaceAll re repl (c :: r) =
  match re_match re (c :: r) with
  | Some rest => repl ++ replaceAll re repl rest
  | None => c :: replaceAll re repl r
  end.
Proof.
  unfold replaceAll. rewrite replaceAll_fuel_step.
  destruct (re_match re (c :: r)) as [rest |] eqn:E.
  - pose proof (Hre _ _ E) as Hlt.
    apply Nat.ltb_lt in Hlt as Hb. rewrite Hb.
    f_equal. simpl in Hlt. apply replaceAll_fuel_enough; simpl; lia.
  - reflexivity.
Qed.

End Replace.

(** *** The pattern for runs of spaces and tabs *)

Lemma greedy_all p s : greedy p Some s = Some (dropWhile p s).
Proof.
  induction s as [| c r IH]; simpl; [reflexivity |].
  destruct (p c); [| reflexivity]. now rewrite IH.
Qed.

Lemma re_spaces_match c r :
  re_match re_spaces (c :: r) =
  if isSpaceOrTab c then Some (dropWhile isSpaceOrTab r) else None.
Proof.
  unfold re_spaces. cbn [re_match].
  destruct (isSpaceOrTab c); [| reflexivity]. apply greedy_all.
Qed.

Lemma collapseSpaces_nil : collapseSpaces [] = [].
Proof. apply replaceAll_nil, consuming_One. Qed.

Lemma collapseSpaces_cons c r :
  collapseSpaces (c :: r) =
  if isSpaceOrTab c then SP :: collapseSpaces (dropWhile isSpaceOrTab r)
  else c :: collapseSpaces r.
Proof.
  unfold collapseSpaces at 1.
  rewrite replaceAll_cons by apply consuming_One.
  rewrite re_spaces_match. now destruct (isSpaceOrTab c).
Qed.

(** *** The pattern for blank lines *)

(** After [\s*\n] the match stands behind the last line break of the
    run of whitespace. *)
Lemma blank_tail_1 s :
  match greedy isWhiteSpace (re_match [One isNewline]) s with
  | Some rest => leadingNewlines rest = 0%nat /\ (1 <= leadingNewlines s)%nat
  | None => leadingNewlines s = 0%nat
  end.
Proof.
  induction s as [| c r IH]; cbn [greedy leadingNewlines].
  - reflexivity.
  - destruct (isWhiteSpace c) eqn:Ew.
    + destruct (greedy isWhiteSpace (re_match [One isNewline]) r) as [x |].
      * destruct IH. split; [assumption | lia].
      * cbn [re_match]. destruct (isNewline c); [split; lia | lia].
    + cbn [re_match]. destruct (isNewline c) eqn:En; [| reflexivity].
      apply newline_is_whitespace in En. congruence.
Qed.

Lemma blank_tail_2 s :
  match greedy isWhiteSpace
          (re_match [One isNewline; Star isWhiteSpace; One isNewline]) s with
  | Some rest => leadingNewlines rest = 0%nat /\ (2 <= leadingNewlines s)%nat
  | None => (leadingNewlines s <= 1)%nat
  end.
Proof.
  induction s as [| c r IH]; cbn [greedy leadingNewlines].
  - cbn. lia.
  - destruct (isWhiteSpace c) eqn:Ew.
    + destruct (greedy isWhiteSpace
                  (re_match [One isNewline; Star isWhiteSpace; One isNewline]) r)
        as [x |].
      * destruct IH. split; [assumption | lia].
      * rewrite re_match_One, re_match_Star. destruct (isNewline c).
        -- pose proof (blank_tail_1 r) as H1.
           destruct (greedy isWhiteSpace (re_match [One isNewline]) r);
             [destruct H1; split; lia | lia].
        -- lia.
    + rewrite re_match_One. destruct (isNewline c) eqn:En; [| lia].
      apply newline_is_whitespace in En. congruence.
Qed.

Lemma re_blank_lines_match c r :
  match re_match re_blank_lines (c :: r) with
  | Some rest =>
      isNewline c = true /\ leadingNewlines rest = 0%nat
      /\ (2 <= leadingNewlines r)%nat
  | None => isNewline c = true -> (leadingNewlines r <= 1)%nat
  end.
Proof.
  unfold re_blank_lines. rewrite re_match_One, re_match_Star.
  destruct (isNewline c); [| discriminate].
  pose proof (blank_tail_2 r) as H.
  destruct (greedy isWhiteSpace
              (re_match [One isNewline; Star isWhiteSpace; One isNewline]) r).
  - destruct H. auto.
  - auto.
Qed.

Lemma collapseBlankLines_nil : collapseBlankLines [] = [].
Proof. apply replaceAll_nil, consuming_One. Qed.

Lemma collapseBlankLines_cons c r :
  collapseBlankLines (c :: r) =
  match re_match re_blank_lines (c :: r) with
  | Some rest => NL :: NL :: collapseBlankLines rest
  | None => c :: collapseBlankLines r
  end.
Proof.
  unfold collapseBlankLines at 1.
  rewrite replaceAll_cons by apply consuming_One. reflexivity.
Qed.

End RegexFacts.

(* ===================================================================== *)
(** ** The four passes of [cleanExtractedText] and what each establishes *)
(* ===================================================================== *)

Section Normalizer.

(** *** Pass 1: runs of spaces and tabs *)

Lemma startsWithSpaceOrTab_dropWhile s :
  startsWithSpaceOrTab (dropWhile isSpaceOrTab s) = false.
Proof.
  induction s as [| c r IH]; simpl; [reflexivity |].
  destruct (isSpaceOrTab c) eqn:E; [assumption | exact E].
Qed.

Lemma dropWhile_not_started s :
  startsWithSpaceOrTab s = false -> dropWhile isSpaceOrTab s = s.
Proof. destruct s as [| c r]; simpl; [reflexivity | now intros ->]. Qed.

Lemma collapseSpaces_start s :
  startsWithSpaceOrTab s = false ->
  startsWithSpaceOrTab (collapseSpaces s) = false.
Proof.
  destruct s as [| c r]; intros H.
  - now rewrite collapseSpaces_nil.
  - cbn [startsWithSpaceOrTab] in H. rewrite collapseSpaces_cons, H. exact H.
Qed.

Lemma spacesCollapsed_collapseSpaces s : spacesCollapsed (collapseSpaces s).
Proof.
  remember (length s) as n eqn:Hn. revert s Hn.
  induction n as [n IH] using lt_wf_ind. intros [| c r] Hn.
  - rewrite collapseSpaces_nil. exact I.
  - rewrite collapseSpaces_cons. simpl in Hn.
    destruct (isSpaceOrTab c) eqn:E.
    + split.
      * intros _. split; [reflexivity |].
        apply collapseSpaces_start, startsWithSpaceOrTab_dropWhile.
      * eapply IH; [| reflexivity].
        assert (length (dropWhile isSpaceOrTab r) <= length r)%nat.
        { clear. induction r as [| d r IHr]; simpl; [lia |].
          destruct (isSpaceOrTab d); simpl; lia. }
        lia.
    + split; [congruence |]. eapply IH; [| reflexivity]. lia.
Qed.

Lemma collapseSpaces_fixed s : spacesCollapsed s -> collapseSpaces s = s.
Proof.
  induction s as [| c r IH]; intros H.
  - apply collapseSpaces_nil.
  - destruct H as [Hc Hr]. rewrite collapseSpaces_cons.
    destruct (isSpaceOrTab c) eqn:E.
    + destruct (Hc eq_refl) as [-> Hs].
      rewrite dropWhile_not_started by assumption. now rewrite IH.
    + now rewrite IH.
Qed.

Lemma spacesCollapsed_app_l a b : spacesCollapsed (a ++ b) -> spacesCollapsed a.
Proof.
  induction a as [| c a IH]; simpl; [trivial |].
  intros [Hc Hr]. split; [| now apply IH].
  intros E. destruct (Hc E) as [-> Hs]. split; [reflexivity |].
  destruct a; [reflexivity | exact Hs].
Qed.

Lemma spacesCollapsed_app_r a b : spacesCollapsed (a ++ b) -> spacesCollapsed b.
Proof.
  induction a as [| c a IH]; simpl; [trivial |]. intros [_ Hr]. now apply IH.
Qed.

Lemma spacesCollapsed_trim s : spacesCollapsed s -> spacesCollapsed (trim s).
Proof.
  intros H. unfold trim.
  destruct (trimStart_suffix s) as [w Hw].
  destruct (trimEnd_prefix (trimStart s)) as [v Hv].
  rewrite Hw in H. apply spacesCollapsed_app_r in H.
  rewrite Hv in H. now apply spacesCollapsed_app_l in H.
Qed.

Lemma spacesCollapsed_line l r :
  spacesCollapsed l -> spacesCollapsed r -> spacesCollapsed (l ++ NL :: r).
Proof.
  intros Hl Hr. induction l as [| c l IH]; simpl.
  - split; [discriminate | assumption].
  - destruct Hl as [Hc Hl]. split; [| now apply IH].
    intros E. destruct (Hc E) as [-> Hs]. split; [reflexivity |].
    destruct l; [reflexivity | exact Hs].
Qed.

Lemma spacesCollapsed_join ls :
  Forall spacesCollapsed ls -> spacesCollapsed (join NL ls).
Proof.
  induction 1 as [| l ls Hl Hls IH]; [exact I |].
  destruct ls as [| l' ls]; [exact Hl |].
  rewrite join_cons. now apply spacesCollapsed_line.
Qed.

Lemma spacesCollapsed_lines ls :
  spacesCollapsed (join NL ls) -> Forall spacesCollapsed ls.
Proof.
  induction ls as [| l ls IH]; intros H; [constructor |].
  destruct ls as [| l' ls]; [now repeat constructor |].
  rewrite join_cons in H. constructor.
  - now apply spacesCollapsed_app_l in H.
  - apply IH. apply spacesCollapsed_app_r in H. now destruct H.
Qed.

Lemma spacesCollapsed_trimLines s :
  spacesCollapsed s -> spacesCollapsed (trimLines s).
Proof.
  intros H. unfold trimLines. apply spacesCollapsed_join.
  rewrite <- (join_split NL s) in H. apply spacesCollapsed_lines in H.
  induction H; simpl; constructor; [now apply spacesCollapsed_trim | assumption].
Qed.

Lemma collapseBlankLines_start s :
  startsWithSpaceOrTab (collapseBlankLines s) = startsWithSpaceOrTab s.
Proof.
  destruct s as [| c r].
  - now rewrite collapseBlankLines_nil.
  - rewrite collapseBlankLines_cons.
    pose proof (re_blank_lines_match c r) as H.
    destruct (re_match re_blank_lines (c :: r)); [| reflexivity].
    destruct H as [Hc _]. simpl.
    now rewrite (newline_not_space_or_tab c Hc).
Qed.

Lemma spacesCollapsed_collapseBlankLines s :
  spacesCollapsed s -> spacesCollapsed (collapseBlankLines s).
Proof.
  remember (length s) as n eqn:Hn. revert s Hn.
  induction n as [n IH] using lt_wf_ind. intros [| c r] Hn H.
  - now rewrite collapseBlankLines_nil.
  - rewrite collapseBlankLines_cons.
    destruct (re_match re_blank_lines (c :: r)) as [rest |] eqn:E.
    + pose proof (consuming_One _ _ _ _ E) as Hlt.
      apply re_match_suffix in E as [pre Hpre].
      rewrite Hpre in H. apply spacesCollapsed_app_r in H.
      split; [discriminate |]. split; [discriminate |].
      eapply IH; [| reflexivity | assumption]. lia.
    + destruct H as [Hc Hr]. split.
      * intros Ec. destruct (Hc Ec) as [-> Hs]. split; [reflexivity |].
        now rewrite collapseBlankLines_start.
      * eapply IH; [| reflexivity | assumption]. simpl in Hn. lia.
Qed.

(** *** Pass 2: blank lines *)

Lemma leadingNewlines_strips s t :
  strips s t -> (leadingNewlines t <= leadingNewlines s)%nat.
Proof.
  induction 1 as [| c s t _ IH | c s t Hc _ IH]; simpl.
  - lia.
  - destruct (isWhiteSpace c); lia.
  - rewrite Hc. lia.
Qed.

Lemma blankLinesCollapsed_strips s t :
  strips s t -> blankLinesCollapsed s -> blankLinesCollapsed t.
Proof.
  induction 1 as [| c s t Hst IH | c s t Hc Hst IH]; simpl.
  - trivial.
  - intros [Hn Hs]. split; [| now apply IH].
    intros E. apply leadingNewlines_strips in Hst. specialize (Hn E). lia.
  - intros [_ Hs]. now apply IH.
Qed.

Lemma leadingNewlines_collapseBlankLines s :
  (leadingNewlines (collapseBlankLines s) <= leadingNewlines s)%nat.
Proof.
  remember (length s) as n eqn:Hn. revert s Hn.
  induction n as [n IH] using lt_wf_ind. intros [| c r] Hn.
  - now rewrite collapseBlankLines_nil.
  - rewrite collapseBlankLines_cons.
    pose proof (re_blank_lines_match c r) as H.
    destruct (re_match re_blank_lines (c :: r)) as [rest |] eqn:E.
    + destruct H as (Hc & Hrest & Hr).
      pose proof (consuming_One _ _ _ _ E) as Hlt.
      assert (leadingNewlines (collapseBlankLines rest) <= leadingNewlines rest)%nat
        as Hle by (eapply IH; [| reflexivity]; lia).
      cbn [leadingNewlines].
      rewrite (newline_is_whitespace c Hc), Hc.
      change (isWhiteSpace NL) with true. change (isNewline NL) with true.
      cbn iota. lia.
    + cbn [leadingNewlines]. simpl in Hn.
      assert (leadingNewlines (collapseBlankLines r) <= leadingNewlines r)%nat
        as Hle by (eapply IH; [| reflexivity]; lia).
      destruct (isWhiteSpace c); lia.
Qed.

Lemma blankLinesCollapsed_collapseBlankLines s :
  blankLinesCollapsed (collapseBlankLines s).
Proof.
  remember (length s) as n eqn:Hn. revert s Hn.
  induction n as [n IH] using lt_wf_ind. intros [| c r] Hn.
  - now rewrite collapseBlankLines_nil.
  - rewrite collapseBlankLines_cons.
    pose proof (re_blank_lines_match c r) as H.
    destruct (re_match re_blank_lines (c :: r)) as [rest |] eqn:E.
    + destruct H as (Hc & Hrest & Hr).
      pose proof (consuming_One _ _ _ _ E) as Hlt.
      pose proof (leadingNewlines_collapseBlankLines rest) as Hle.
      cbn [blankLinesCollapsed leadingNewlines].
      change (isWhiteSpace NL) with true. change (isNewline NL) with true.
      cbn iota.
      split; [intros _; lia |]. split; [intros _; lia |].
      eapply IH; [| reflexivity]. lia.
    + pose proof (leadingNewlines_collapseBlankLines r) as Hle.
      simpl in Hn. split.
      * intros Ec. specialize (H Ec). lia.
      * eapply IH; [| reflexivity]. lia.
Qed.

Lemma collapseBlankLines_fixed s :
  blankLinesCollapsed s -> collapseBlankLines s = s.
Proof.
  induction s as [| c r IH]; intros H.
  - apply collapseBlankLines_nil.
  - destruct H as [Hc Hr]. rewrite collapseBlankLines_cons.
    pose proof (re_blank_lines_match c r) as H.
    destruct (re_match re_blank_lines (c :: r)) as [rest |].
    + destruct H as (Ec & _ & Hge). specialize (Hc Ec). lia.
    + now rewrite IH.
Qed.

Lemma strips_join ls :
  strips (join NL ls) (join NL (map trim ls)).
Proof.
  induction ls as [| l ls IH]; [constructor |].
  destruct ls as [| l' ls]; [apply strips_trim |].
  cbn [map] in *. rewrite !join_cons.
  apply strips_app; [apply strips_trim |]. now apply strips_keep.
Qed.

Lemma strips_trimLines s : strips s (trimLines s).
Proof.
  unfold trimLines. rewrite <- (join_split NL s) at 1. apply strips_join.
Qed.

End Normalizer.

Section LinesTrimmed.

(** *** Pass 3: the lines, and pass 4: the whole string *)

Lemma cleanLine_trim l :
  Forall (fun c => isNewline c = false) l -> cleanLine (trim l).
Proof.
  intros H. repeat split.
  - exact (strips_Forall _ _ _ (strips_trim l) H).
  - apply startsClean_trimEnd, startsClean_trimStart.
  - apply trimEnd_idem.
Qed.

Lemma cleanLine_fixed l : cleanLine l -> trim l = l.
Proof.
  intros (_ & Hs & He). unfold trim. now rewrite trimStart_clean.
Qed.

Lemma linesTrimmed_trimLines s : linesTrimmed (trimLines s).
Proof.
  exists (map trim (split NL s)). split; [reflexivity |].
  pose proof (split_lines_no_newline s) as H.
  induction H; simpl; constructor; [now apply cleanLine_trim | assumption].
Qed.

Lemma trimLines_join ls :
  Forall cleanLine ls -> trimLines (join NL ls) = join NL ls.
Proof.
  intros H. destruct ls as [| l ls]; [reflexivity |].
  unfold trimLines. rewrite split_join.
  - f_equal. induction H as [| x xs Hx _ IH]; simpl; [reflexivity |].
    now rewrite cleanLine_fixed, IH.
  - discriminate.
  - induction H as [| x xs Hx _ IH]; constructor; [apply Hx | assumption].
Qed.

Lemma trimLines_fixed s : linesTrimmed s -> trimLines s = s.
Proof. intros (ls & -> & H). now apply trimLines_join. Qed.

Lemma linesTrimmed_trimStart s : linesTrimmed s -> linesTrimmed (trimStart s).
Proof.
  intros (ls & -> & H).
  induction H as [| l ls Hl Hls IH].
  - now exists [].
  - destruct l as [| c l].
    + destruct ls as [| l' ls]; [now exists [] |].
      rewrite join_cons. exact IH.
    + exists ((c :: l) :: ls). split; [| now constructor].
      apply trimStart_clean.
      destruct Hl as (_ & Hs & _).
      destruct ls; exact Hs.
Qed.

Lemma linesTrimmed_trimEnd s : linesTrimmed s -> linesTrimmed (trimEnd s).
Proof.
  intros (ls & -> & H).
  induction H as [| l ls Hl Hls IH].
  - now exists [].
  - assert (trimEnd l = l) as El by apply Hl.
    destruct ls as [| l' ls].
    + exists [l]. split; [exact El | now constructor].
    + rewrite join_cons, trimEnd_app.
      destruct IH as (ls' & Heq & Hls').
      cbn [trimEnd]. rewrite Heq.
      destruct (join NL ls') as [| d x] eqn:Ej.
      * change (isWhiteSpace NL) with true. cbn iota. rewrite El.
        exists [l]. split; [reflexivity | now constructor].
      * exists (l :: ls'). split; [| now constructor].
        destruct ls' as [| l1 ls1]; [discriminate |].
        rewrite join_cons, Ej. reflexivity.
Qed.

Lemma linesTrimmed_trim s : linesTrimmed s -> linesTrimmed (trim s).
Proof.
  intros H. unfold trim. now apply linesTrimmed_trimEnd, linesTrimmed_trimStart.
Qed.

End LinesTrimmed.

Example cleanExtractedText_sample :
  cleanExtractedText
    (lit "  a " ++ [TAB] ++ lit " b " ++ [NL; SP; NL; NL; 13; NL] ++ lit " c  "
       ++ [NL; NL] ++ lit "d" ++ [NL; NL; NL])
  = lit "a b" ++ [NL; NL] ++ lit "c" ++ [NL; NL] ++ lit "d".
Proof. reflexivity. Qed.

(** The output of [cleanExtractedText] is in normal form for each pass. *)
Lemma cleanExtractedText_normal s :
  let t := cleanExtractedText s in
  spacesCollapsed t /\ blankLinesCollapsed t /\ linesTrimmed t /\ trim t = t.
Proof.
  unfold cleanExtractedText. repeat split.
  - apply spacesCollapsed_trim, spacesCollapsed_trimLines,
      spacesCollapsed_collapseBlankLines, spacesCollapsed_collapseSpaces.
  - eapply blankLinesCollapsed_strips; [apply strips_trim |].
    eapply blankLinesCollapsed_strips; [apply strips_trimLines |].
    apply blankLinesCollapsed_collapseBlankLines.
  - apply linesTrimmed_trim, linesTrimmed_trimLines.
  - apply trim_idem.
Qed.

(** C2. The whitespace normalizer [cleanExtractedText] is idempotent:
    applying it to its own output changes nothing, for every string. *)
Theorem cleanExtractedText_idempotent (s : jsstring) :
  cleanExtractedText (cleanExtractedText s) = cleanExtractedText s.
Proof.
  destruct (cleanExtractedText_normal s) as (H1 & H2 & H3 & H4).
  set (t := cleanExtractedText s) in *.
  unfold cleanExtractedText at 1.
  rewrite (collapseSpaces_fixed t H1), (collapseBlankLines_fixed t H2),
    (trimLines_fixed t H3).
  exact H4.
Qed.

(* ===================================================================== *)
(** ** The validation gate *)
(* ===================================================================== *)

Lemma maxFileSize_bytes : maxFileSize = 52428800.
Proof. reflexivity. Qed.

Lemma validatePDFFile_refines_rules file :
  validatePDFFile file = spec_first_failing spec_rules file.
Proof.
  destruct file as [f |]; [| reflexivity].
  unfold validatePDFFile, spec_rules. cbn [spec_first_failing].
  destruct (JS.eqb (type f) (lit "application/pdf")); cbn [negb]; [| reflexivity].
  rewrite maxFileSize_bytes.
  rewrite (N.ltb_antisym (size f) 52428800), (N.leb_antisym 52428800 (size f)).
  rewrite negb_involutive.
  destruct (52428800 <? size f); cbn [negb]; [reflexivity |].
  destruct (N.eqb_spec (size f) 0) as [-> | Hne]; [reflexivity |].
  assert ((0 <? size f) = true) as -> by (apply N.ltb_lt; lia).
  reflexivity.
Qed.

(** C6. [validatePDFFile] checks its rules in the order descriptor present,
    type is PDF, size at most 52,428,800 bytes, size positive, and the first
    rule that fails gives the reason; a descriptor of the wrong type is
    rejected for its type whatever its size (so also when it is oversize);
    scenario D: [{type: "text/plain", size: 100}] is rejected with
    "File must be a PDF document". *)
Theorem validatePDFFile_first_failing_rule :
  (forall file, validatePDFFile file = spec_first_failing spec_rules file)
  /\ (forall f, type f <> lit "application/pdf" ->
        validatePDFFile (Some f)
        = {| isValid := false;
             error := Some (lit "File must be a PDF document") |})
  /\ validatePDFFile (Some {| type := lit "text/plain"; size := 100 |})
     = {| isValid := false; error := Some (lit "File must be a PDF document") |}.
Proof.
  split; [exact validatePDFFile_refines_rules |]. split; [| reflexivity].
  intros f Hf. unfold validatePDFFile, JS.eqb.
  destruct (list_eq_dec N.eq_dec (type f) (lit "application/pdf"));
    [contradiction | reflexivity].
Qed.

Lemma validatePDFFile_first_failing_rule_witness :
  (52428800 < size Sample.hugeTextFile)
  /\ validatePDFFile (Some Sample.hugeTextFile)
     = {| isValid := false; error := Some (lit "File must be a PDF document") |}.
Proof.
  split; [reflexivity |].
  apply (proj1 (proj2 validatePDFFile_first_failing_rule)).
  discriminate.
Defined.

(* ===================================================================== *)
(** ** The reconstructor *)
(* ===================================================================== *)

Section Reconstructor.

Variable options : TextExtractionOptions.

(** The character loop copies the fragment. *)
Lemma processChar_copies c : processChar c = [c].
Proof.
  unfold processChar. destruct (127 <? c); [reflexivity |].
  destruct (N.eqb_spec c 32) as [-> | _]; [reflexivity |].
  now destruct (isStandardPrintable c).
Qed.

Lemma processChars_copies itemText : processChars itemText = itemText.
Proof.
  unfold processChars.
  assert (forall acc,
             fold_left (fun processedText c => processedText ++ processChar c)
               itemText acc = acc ++ itemText) as H.
  { induction itemText as [| c r IH]; intros acc; simpl.
    - now rewrite app_nil_r.
    - rewrite IH, processChar_copies, <- app_assoc. reflexivity. }
  apply H.
Qed.

Lemma trim_whitespace s :
  Forall (fun c => isWhiteSpace c = true) s -> trim s = [].
Proof.
  unfold trim, trimStart. induction 1 as [| c r Hc _ IH]; simpl.
  - reflexivity.
  - now rewrite Hc.
Qed.

Lemma processItem_blank i item st :
  trim (str item) = [] -> processItem options i item st = st.
Proof. unfold processItem. intros ->. reflexivity. Qed.

(** The index of an item matters only through the test [i > 0], and not
    at all before the first fragment that is kept. *)
Lemma processItem_index i j item st :
  lastY st = None \/ (0 < i /\ 0 < j)%nat ->
  processItem options i item st = processItem options j item st.
Proof.
  intros H. unfold processItem.
  destruct (negb (truthy (trim (str item)))); [reflexivity |].
  destruct H as [H | [Hi Hj]].
  - rewrite H. cbn [onSameLine andb].
    now destruct (combineTextItems options), (0 <? i)%nat, (0 <? j)%nat.
  - apply Nat.ltb_lt in Hi, Hj. now rewrite Hi, Hj.
Qed.

Lemma processItems_shift i items st :
  lastY st = None \/ (0 < i)%nat ->
  processItems options (S i) items st = processItems options i items st.
Proof.
  revert i st. induction items as [| item rest IH]; intros i st H.
  - reflexivity.
  - cbn [processItems].
    rewrite (processItem_index (S i) i item st) by (destruct H; [auto | right; lia]).
    apply IH. right. lia.
Qed.

Lemma processItems_skip_blank i before item after st :
  trim (str item) = [] ->
  lastY st = None \/ (0 < i)%nat ->
  processItems options i (before ++ item :: after) st
  = processItems options i (before ++ after) st.
Proof.
  intros Hblank. revert i st.
  induction before as [| b before IH]; intros i st H.
  - cbn [app processItems]. rewrite processItem_blank by assumption.
    now apply processItems_shift.
  - cbn [app processItems]. apply IH. right. lia.
Qed.

End Reconstructor.

(** Scenario B: a vertical move of more than five units breaks the line. *)
Example processTextContent_two_lines :
  processTextContent (Some [Sample.line1; Sample.line2]) defaultOptions
  = lit "Line1" ++ [NL] ++ lit "Line2".
Proof. reflexivity. Qed.

(** A page without fragments, or without text content, has the empty text. *)
Example processTextContent_empty options :
  processTextContent (Some []) options = []
  /\ processTextContent None options = [].
Proof. split; reflexivity. Qed.

(** C8. Scenario A: the fragments "Hello" (x = 0, width 10) and "World"
    (x = 11), both at y = 100, with [combineTextItems] on, are reconstructed
    as "Hello World", whatever the other options and the width of the
    second fragment; the space comes from the combine rule: with
    [combineTextItems] off the text is "HelloWorld". *)
Theorem processTextContent_hello_world
    (preserve metadata : bool) (w : option Q) :
  processTextContent (Some [Sample.hello; Sample.world w])
    {| preserveFormatting := preserve; includeMetadata := metadata;
       combineTextItems := true |}
  = lit "Hello World"
  /\ processTextContent (Some [Sample.hello; Sample.world w])
       {| preserveFormatting := preserve; includeMetadata := metadata;
          combineTextItems := false |}
     = lit "HelloWorld".
Proof. destruct preserve; split; reflexivity. Qed.

(** C9. A fragment whose content is whitespace only is skipped: whatever
    the options, the index and the state of the loop, the loop body leaves
    the accumulated text, [lastY] and [lastX] as they were, and the text of
    the page is the text of the page without that fragment. *)
Theorem whitespace_fragment_skipped
    (options : TextExtractionOptions) (item : TextItem)
    (Hblank : Forall (fun c => isWhiteSpace c = true) (str item)) :
  (forall i st, processItem options i item st = st)
  /\ (forall before after,
        processTextContent (Some (before ++ item :: after)) options
        = processTextContent (Some (before ++ after)) options).
Proof.
  apply trim_whitespace in Hblank. split.
  - intros i st. now apply processItem_blank.
  - intros before after. unfold processTextContent.
    rewrite processItems_skip_blank; [reflexivity | assumption | now left].
Qed.

Lemma whitespace_fragment_skipped_witness :
  (forall i st, processItem defaultOptions i Sample.blank st = st)
  /\ (forall before after,
        processTextContent (Some (before ++ Sample.blank :: after)) defaultOptions
        = processTextContent (Some (before ++ after)) defaultOptions).
Proof.
  apply (whitespace_fragment_skipped defaultOptions Sample.blank).
  repeat constructor.
Defined.

(* ===================================================================== *)
(** ** The page loop of the detailed extraction *)
(* ===================================================================== *)

Section DetailedLoop.

Variables (options : TextExtractionOptions) (pdfDocument : PDFDocument).

Lemma pageEntry_number pageNum :
  PageInfo.pageNumber (pageEntry options pdfDocument pageNum) = pageNum.
Proof.
  unfold pageEntry. now destruct (fetchTextContent pdfDocument pageNum).
Qed.

Lemma appendPage_contribution pageNum textContent fullText :
  (1 <= pageNum)%nat ->
  fetchTextContent pdfDocument pageNum = Returns textContent ->
  appendPage pageNum (processTextContent textContent options) fullText
  = fullText ++ spec_contribution options pdfDocument pageNum.
Proof.
  intros Hp Hf. unfold appendPage, spec_contribution. rewrite Hf.
  cbn zeta. set (pageText := processTextContent textContent options).
  destruct pageNum as [| [| k]]; [lia | |].
  - cbn [Nat.ltb Nat.leb andb]. reflexivity.
  - change (1 <? S (S k))%nat with true. cbn [andb].
    destruct (trim pageText) as [| c r]; cbn [truthy].
    + reflexivity.
    + rewrite <- app_assoc. reflexivity.
Qed.

Lemma detailedPage_step pageNum pages fullText :
  (1 <= pageNum)%nat ->
  detailedPage options pdfDocument pageNum (pages, fullText)
  = (pages ++ [pageEntry options pdfDocument pageNum],
     fullText ++ spec_contribution options pdfDocument pageNum).
Proof.
  intros Hp. unfold detailedPage, pageEntry.
  destruct (fetchTextContent pdfDocument pageNum) as [textContent | m] eqn:E.
  - cbn zeta. now rewrite appendPage_contribution.
  - unfold spec_contribution. rewrite E, app_nil_r. reflexivity.
Qed.

Lemma detailedLoop_run remaining pageNum pages fullText :
  (1 <= pageNum)%nat ->
  detailedLoop options pdfDocument remaining pageNum (pages, fullText)
  = (pages ++ map (pageEntry options pdfDocument) (seq pageNum remaining),
     fullText ++ concat (map (spec_contribution options pdfDocument)
                             (seq pageNum remaining))).
Proof.
  revert pageNum pages fullText.
  induction remaining as [| k IH]; intros pageNum pages fullText Hp.
  - cbn. now rewrite !app_nil_r.
  - cbn [detailedLoop seq map concat].
    rewrite detailedPage_step, IH by lia.
    now rewrite <- !app_assoc.
Qed.

End DetailedLoop.

Lemma extractDetailedTextFromPDF_run env file options arrayBuffer pdfDocument :
  fileToArrayBuffer env file = Returns arrayBuffer ->
  getDocument env arrayBuffer = Returns pdfDocument ->
  extractDetailedTextFromPDF env file options
  = Returns
      {| ExtractedTextData.text := trim (spec_fullText options pdfDocument);
         ExtractedTextData.metadata :=
           if includeMetadata options then Some (readMetadata pdfDocument)
           else None;
         ExtractedTextData.pages :=
           map (pageEntry options pdfDocument) (seq 1 (numPages pdfDocument)) |}.
Proof.
  intros Hread Hload. unfold extractDetailedTextFromPDF.
  rewrite Hread, Hload, detailedLoop_run by lia. reflexivity.
Qed.

(** C4. When the document loads, the detailed extraction resolves with one
    entry per page: [pages.length] is the page count and the page numbers
    run from 1 to the page count in order, whether or not pages fail. *)
Theorem pages_cover_the_document
    (env : Environment) (file : File) (options : TextExtractionOptions)
    (arrayBuffer : list N) (pdfDocument : PDFDocument)
    (Hread : fileToArrayBuffer env file = Returns arrayBuffer)
    (Hload : getDocument env arrayBuffer = Returns pdfDocument) :
  exists data,
    extractDetailedTextFromPDF env file options = Returns data
    /\ length (ExtractedTextData.pages data) = numPages pdfDocument
    /\ map PageInfo.pageNumber (ExtractedTextData.pages data)
       = seq 1 (numPages pdfDocument).
Proof.
  eexists. split; [eapply extractDetailedTextFromPDF_run; eassumption |].
  cbn [ExtractedTextData.pages]. split.
  - now rewrite length_map, length_seq.
  - rewrite map_map. rewrite <- (map_id (seq 1 (numPages pdfDocument))) at 2.
    apply map_ext. apply pageEntry_number.
Qed.

Lemma pages_cover_the_document_witness :
  exists data,
    extractDetailedTextFromPDF (Sample.opening Sample.threePages) Sample.pdf
      defaultOptions = Returns data
    /\ length (ExtractedTextData.pages data) = 3%nat
    /\ map PageInfo.pageNumber (ExtractedTextData.pages data) = [1; 2; 3]%nat.
Proof.
  apply (pages_cover_the_document (Sample.opening Sample.threePages) Sample.pdf
           defaultOptions [] Sample.threePages); reflexivity.
Defined.

(** C5, as the code has it. The entry of a page that was read has
    [characterCount] equal to the length of its text; the entry of a page
    that failed has the placeholder as its text and [characterCount] 0. *)
Theorem characterCount_of_each_page
    (env : Environment) (file : File) (options : TextExtractionOptions)
    (arrayBuffer : list N) (pdfDocument : PDFDocument)
    (Hread : fileToArrayBuffer env file = Returns arrayBuffer)
    (Hload : getDocument env arrayBuffer = Returns pdfDocument) :
  exists data,
    extractDetailedTextFromPDF env file options = Returns data
    /\ Forall
         (fun entry =>
            match fetchTextContent pdfDocument (PageInfo.pageNumber entry) with
            | Returns _ =>
                PageInfo.characterCount entry = length (PageInfo.text entry)
            | Throws _ =>
                PageInfo.text entry
                = errorPlaceholder (PageInfo.pageNumber entry)
                /\ PageInfo.characterCount entry = 0%nat
            end)
         (ExtractedTextData.pages data).
Proof.
  eexists. split; [eapply extractDetailedTextFromPDF_run; eassumption |].
  cbn [ExtractedTextData.pages]. apply Forall_forall. intros entry Hin.
  apply in_map_iff in Hin as (pageNum & <- & _).
  rewrite pageEntry_number. unfold pageEntry.
  destruct (fetchTextContent pdfDocument pageNum); cbn; auto.
Qed.

Lemma characterCount_of_each_page_witness :
  exists data,
    extractDetailedTextFromPDF (Sample.opening Sample.threePages) Sample.pdf
      defaultOptions = Returns data
    /\ Forall
         (fun entry =>
            match fetchTextContent Sample.threePages (PageInfo.pageNumber entry) with
            | Returns _ =>
                PageInfo.characterCount entry = length (PageInfo.text entry)
            | Throws _ =>
                PageInfo.text entry
                = errorPlaceholder (PageInfo.pageNumber entry)
                /\ PageInfo.characterCount entry = 0%nat
            end)
         (ExtractedTextData.pages data).
Proof.
  apply (characterCount_of_each_page (Sample.opening Sample.threePages)
           Sample.pdf defaultOptions [] Sample.threePages); reflexivity.
Defined.

(** C5 as stated fails: in the three-page document whose second page cannot
    be read, the entry of page 2 has [characterCount] 0 and a text of 35
    characters. *)
Lemma characterCount_differs_on_failed_page :
  exists data entry,
    extractDetailedTextFromPDF (Sample.opening Sample.threePages) Sample.pdf
      defaultOptions = Returns data
    /\ nth_error (ExtractedTextData.pages data) 1 = Some entry
    /\ PageInfo.characterCount entry = 0%nat
    /\ length (PageInfo.text entry) = 35%nat
    /\ PageInfo.characterCount entry <> length (PageInfo.text entry).
Proof.
  do 2 eexists. split; [reflexivity |]. split; [reflexivity |].
  repeat split. discriminate.
Qed.

(* ===================================================================== *)
(** ** The progress-observed extraction *)
(* ===================================================================== *)

Lemma percents_app log log' : percents (log ++ log') = percents log ++ percents log'.
Proof. apply map_app. Qed.

Section ProgressLoop.

Variables (onProgress : bool) (options : TextExtractionOptions)
          (pdfDocument : PDFDocument) (totalPages : nat).

Lemma progressLoop_step k pageNum fullText log :
  progressLoop onProgress options pdfDocument totalPages (S k) pageNum
    fullText log
  = match fetchTextContent pdfDocument pageNum with
    | Throws m => (Throws m, log)
    | Returns textContent =>
        progressLoop onProgress options pdfDocument totalPages k (S pageNum)
          (appendPage pageNum (processTextContent textContent options) fullText)
          (if onProgress
           then log ++ [(pageProgress pageNum totalPages,
                         lit "Processed page " ++ ofNat pageNum ++ lit " of "
                           ++ ofNat totalPages)]
           else log)
    end.
Proof.
  cbn [progressLoop]. unfold bind, await, report.
  now destruct (fetchTextContent pdfDocument pageNum).
Qed.

(** A run of the loop that returns has read every page, has assembled
    their contributions and has reported once per page. *)
Lemma progressLoop_returns remaining pageNum fullText log t log' :
  (1 <= pageNum)%nat ->
  progressLoop onProgress options pdfDocument totalPages remaining pageNum
    fullText log = (Returns t, log') ->
  t = fullText ++ concat (map (spec_contribution options pdfDocument)
                              (seq pageNum remaining))
  /\ percents log'
     = percents log ++
       (if onProgress
        then map (fun k => pageProgress k totalPages) (seq pageNum remaining)
        else []).
Proof.
  revert pageNum fullText log.
  induction remaining as [| k IH]; intros pageNum fullText log Hp Hrun.
  - cbn in Hrun. injection Hrun as <- <-. cbn.
    destruct onProgress; now rewrite !app_nil_r.
  - rewrite progressLoop_step in Hrun.
    destruct (fetchTextContent pdfDocument pageNum) as [textContent | m] eqn:E;
      [| discriminate].
    apply IH in Hrun as [-> ->]; [| lia].
    rewrite (appendPage_contribution options pdfDocument) by assumption.
    cbn [seq map concat]. rewrite <- app_assoc. split; [reflexivity |].
    unfold percents. destruct onProgress; [| reflexivity].
    rewrite map_app, <- app_assoc. reflexivity.
Qed.

(** The loop stops at the first page that fails, with its exception. *)
Lemma progressLoop_throws remaining pageNum fullText log :
  (exists k, In k (seq pageNum remaining)
             /\ exists m, fetchTextContent pdfDocument k = Throws m) ->
  exists m log',
    progressLoop onProgress options pdfDocument totalPages remaining pageNum
      fullText log = (Throws m, log').
Proof.
  revert pageNum fullText log.
  induction remaining as [| k IH]; intros pageNum fullText log (j & Hin & m & Hm).
  - destruct Hin.
  - rewrite progressLoop_step.
    destruct (fetchTextContent pdfDocument pageNum) as [textContent | m'] eqn:E.
    + apply IH. exists j. split; [| now exists m].
      destruct Hin as [<- | Hin]; [congruence | assumption].
    + now exists m', log.
Qed.

End ProgressLoop.

Lemma extractTextWithProgress_run env f onProgress options log
      arrayBuffer pdfDocument :
  isValid (validatePDFFile (Some f)) = true ->
  fileToArrayBuffer env f = Returns arrayBuffer ->
  getDocument env arrayBuffer = Returns pdfDocument ->
  extractTextWithProgress env (Some f) onProgress options log
  = match
      progressLoop onProgress (optionsOrDefault options) pdfDocument
        (numPages pdfDocument) (numPages pdfDocument) 1%nat []
        (if onProgress
         then log ++ [(10%Q, lit "Validating PDF file...");
                      (20%Q, lit "Loading PDF document...");
                      (30%Q, lit "Parsing PDF structure...");
                      (40%Q, lit "Processing " ++ ofNat (numPages pdfDocument)
                               ++ lit " pages...")]
         else log)
    with
    | (Returns fullText, log') =>
        (Returns (trim fullText),
         if onProgress
         then log' ++ [(95%Q, lit "Finalizing text extraction...");
                       (100%Q, lit "Text extraction completed")]
         else log')
    | (Throws m, log') =>
        (Throws (lit "PDF text extraction failed: " ++ m), log')
    end.
Proof.
  intros Hvalid Hread Hload.
  unfold extractTextWithProgress, tryCatch, bind, report, await, ret, throw.
  rewrite Hvalid, Hread, Hload.
  destruct onProgress.
  - rewrite <- !app_assoc. cbn [app].
    destruct (progressLoop _ _ _ _ _ _ _ _) as [[fullText | m] log'];
      [| reflexivity].
    rewrite <- !app_assoc. reflexivity.
  - destruct (progressLoop _ _ _ _ _ _ _ _) as [[fullText | m] log'];
      reflexivity.
Qed.

Lemma extractTextWithProgress_invalid env file onProgress options log :
  isValid (validatePDFFile file) = false ->
  exists m log',
    extractTextWithProgress env file onProgress options log = (Throws m, log').
Proof.
  intros Hvalid.
  unfold extractTextWithProgress, tryCatch, bind, report, throw.
  rewrite Hvalid. eauto.
Qed.

(* ===================================================================== *)
(** ** Pages that fail *)
(* ===================================================================== *)

Lemma spec_contribution_withoutFailedPages options pdfDocument pageNum :
  spec_contribution options (withoutFailedPages pdfDocument) pageNum
  = spec_contribution options pdfDocument pageNum.
Proof.
  unfold spec_contribution, fetchTextContent at 1.
  cbn [withoutFailedPages getPage].
  destruct (fetchTextContent pdfDocument pageNum) as [textContent | m] eqn:E.
  - unfold fetchTextContent in E.
    destruct (getPage pdfDocument pageNum); [now rewrite E | discriminate].
  - cbn. now destruct pageNum as [| [| k]].
Qed.

Lemma spec_fullText_withoutFailedPages options pdfDocument :
  spec_fullText options (withoutFailedPages pdfDocument)
  = spec_fullText options pdfDocument.
Proof.
  unfold spec_fullText. cbn [withoutFailedPages numPages].
  f_equal. apply map_ext. intros pageNum.
  apply spec_contribution_withoutFailedPages.
Qed.

(** C10. A page that fails leaves [fullText] as it was: the turn of the
    loop only adds the placeholder entry to [pages]; neither the placeholder
    nor a marker for that page goes into the document text, which is the
    text of the document in which the failed pages are pages without
    content. *)
Theorem failed_page_leaves_text_unchanged :
  (forall options pdfDocument pageNum pages fullText m,
      fetchTextContent pdfDocument pageNum = Throws m ->
      detailedPage options pdfDocument pageNum (pages, fullText)
      = (pages ++ [ {| PageInfo.pageNumber := pageNum;
                       PageInfo.text := errorPlaceholder pageNum;
                       PageInfo.characterCount := 0%nat |} ],
         fullText))
  /\ (forall env env' file options arrayBuffer arrayBuffer' pdfDocument,
        fileToArrayBuffer env file = Returns arrayBuffer ->
        getDocument env arrayBuffer = Returns pdfDocument ->
        fileToArrayBuffer env' file = Returns arrayBuffer' ->
        getDocument env' arrayBuffer' = Returns (withoutFailedPages pdfDocument) ->
        exists data data',
          extractDetailedTextFromPDF env file options = Returns data
          /\ extractDetailedTextFromPDF env' file options = Returns data'
          /\ ExtractedTextData.text data = ExtractedTextData.text data').
Proof.
  split.
  - intros options pdfDocument pageNum pages fullText m Hm.
    unfold detailedPage. now rewrite Hm.
  - intros env env' file options arrayBuffer arrayBuffer' pdfDocument
      Hread Hload Hread' Hload'.
    do 2 eexists.
    split; [eapply extractDetailedTextFromPDF_run; eassumption |].
    split; [eapply extractDetailedTextFromPDF_run; eassumption |].
    cbn [ExtractedTextData.text].
    now rewrite spec_fullText_withoutFailedPages.
Qed.

Lemma failed_page_leaves_text_unchanged_witness :
  detailedPage defaultOptions Sample.threePages 2 ([], lit "one")
  = ([ {| PageInfo.pageNumber := 2;
          PageInfo.text := errorPlaceholder 2;
          PageInfo.characterCount := 0%nat |} ],
     lit "one")
  /\ exists data data',
       extractDetailedTextFromPDF (Sample.opening Sample.threePages)
         Sample.pdf defaultOptions = Returns data
       /\ extractDetailedTextFromPDF
            (Sample.opening (withoutFailedPages Sample.threePages))
            Sample.pdf defaultOptions = Returns data'
       /\ ExtractedTextData.text data = ExtractedTextData.text data'.
Proof.
  split.
  - apply (proj1 failed_page_leaves_text_unchanged defaultOptions
             Sample.threePages 2%nat [] (lit "one") (lit "page unreadable")).
    reflexivity.
  - apply (proj2 failed_page_leaves_text_unchanged
             (Sample.opening Sample.threePages)
             (Sample.opening (withoutFailedPages Sample.threePages))
             Sample.pdf defaultOptions [] [] Sample.threePages); reflexivity.
Defined.

(** Scenario C: three pages, the second of which cannot be read. *)
Example extractDetailedTextFromPDF_three_pages :
  extractDetailedTextFromPDF (Sample.opening Sample.threePages) Sample.pdf
    defaultOptions
  = Returns
      {| ExtractedTextData.text := lit "one" ++ pageSeparator 3 ++ lit "three";
         ExtractedTextData.metadata :=
           Some {| pageCount := 3; title := None; author := None;
                   subject := None; creator := None; producer := None;
                   creationDate := None; modificationDate := None |};
         ExtractedTextData.pages :=
           [ {| PageInfo.pageNumber := 1; PageInfo.text := lit "one";
                PageInfo.characterCount := 3 |};
             {| PageInfo.pageNumber := 2;
                PageInfo.text := lit "[Error extracting text from page 2]";
                PageInfo.characterCount := 0 |};
             {| PageInfo.pageNumber := 3; PageInfo.text := lit "three";
                PageInfo.characterCount := 5 |} ] |}.
Proof. reflexivity. Qed.

(** C1, on the code. When the only page of a document cannot be read, the
    detailed extraction resolves, with the placeholder entry and
    [characterCount] 0 for that page, and so does [extractTextFromPDF]; but
    [extractTextWithProgress], whose page loop has no [try], rejects with
    the exception of the page. In the three-page document whose second page
    cannot be read it rejects too, after the report for page 1: page 3 is
    never reached. *)
Theorem page_failure_in_each_entry_point :
  extractDetailedTextFromPDF (Sample.opening Sample.brokenPage) Sample.pdf
    defaultOptions
  = Returns {| ExtractedTextData.text := [];
               ExtractedTextData.metadata :=
                 Some (readMetadata Sample.brokenPage);
               ExtractedTextData.pages :=
                 [ {| PageInfo.pageNumber := 1;
                      PageInfo.text := lit "[Error extracting text from page 1]";
                      PageInfo.characterCount := 0%nat |} ] |}
  /\ extractTextFromPDF (Sample.opening Sample.brokenPage) Sample.pdf
       defaultOptions = Returns []
  /\ fst (extractTextWithProgress (Sample.opening Sample.brokenPage)
            (Some Sample.pdf) true None [])
     = Throws (lit "PDF text extraction failed: page unreadable")
  /\ fst (extractTextWithProgress (Sample.opening Sample.threePages)
            (Some Sample.pdf) true None [])
     = Throws (lit "PDF text extraction failed: page unreadable")
  /\ percents (snd (extractTextWithProgress (Sample.opening Sample.threePages)
                      (Some Sample.pdf) true None []))
     = [10; 20; 30; 40; pageProgress 1 3]%Q.
Proof. repeat split. Qed.

(** On the detailed path, and on [extractTextFromPDF] above it, a page
    that fails never rejects the call. *)
Lemma extractTextFromPDF_resolves env file options arrayBuffer pdfDocument :
  fileToArrayBuffer env file = Returns arrayBuffer ->
  getDocument env arrayBuffer = Returns pdfDocument ->
  extractTextFromPDF env file options
  = Returns (trim (spec_fullText options pdfDocument)).
Proof.
  intros Hread Hload. unfold extractTextFromPDF.
  now rewrite (extractDetailedTextFromPDF_run _ _ _ _ _ Hread Hload).
Qed.

(** In the progress-observed form any page that fails rejects the call. *)
Lemma extractTextWithProgress_rejects env f onProgress options log
      arrayBuffer pdfDocument pageNum m :
  fileToArrayBuffer env f = Returns arrayBuffer ->
  getDocument env arrayBuffer = Returns pdfDocument ->
  (1 <= pageNum <= numPages pdfDocument)%nat ->
  fetchTextContent pdfDocument pageNum = Throws m ->
  exists m' log',
    extractTextWithProgress env (Some f) onProgress options log
    = (Throws m', log').
Proof.
  intros Hread Hload Hrange Hm.
  destruct (isValid (validatePDFFile (Some f))) eqn:Hvalid.
  - rewrite (extractTextWithProgress_run _ _ _ _ _ _ _ Hvalid Hread Hload).
    match goal with
    | |- context [progressLoop ?a ?b ?c ?d ?e ?g ?h ?i] =>
        destruct (progressLoop_throws a b c d e g h i) as (m' & log' & E)
    end.
    + exists pageNum. split; [apply in_seq; lia | now exists m].
    + rewrite E. eauto.
  - now apply extractTextWithProgress_invalid.
Qed.

(* ===================================================================== *)
(** ** The progress values *)
(* ===================================================================== *)

Section ProgressValues.

Variable n : nat.
Hypothesis Hn : (1 <= n)%nat.

Local Open Scope Q_scope.

Lemma ofPage_lt p q : (p < q)%nat -> ofPage p < ofPage q.
Proof. intros H. unfold ofPage. rewrite <- Zlt_Qlt. lia. Qed.

Lemma ofPage_le p q : (p <= q)%nat -> ofPage p <= ofPage q.
Proof. intros H. unfold ofPage. rewrite <- Zle_Qle. lia. Qed.

Lemma ofPage_total_pos : 0 < ofPage n.
Proof. apply (ofPage_lt 0 n). lia. Qed.

Lemma pageProgress_increasing p q :
  (p < q)%nat -> pageProgress p n < pageProgress q n.
Proof.
  intros H. unfold pageProgress, Qdiv.
  pose proof (Qinv_lt_0_compat _ ofPage_total_pos) as Hinv.
  pose proof (Qmult_lt_compat_r _ _ _ Hinv (ofPage_lt p q H)) as Hlt.
  lra.
Qed.

Lemma pageProgress_above_40 p : (1 <= p)%nat -> 40 < pageProgress p n.
Proof.
  intros H. unfold pageProgress, Qdiv.
  pose proof (Qinv_lt_0_compat _ ofPage_total_pos) as Hinv.
  pose proof (Qmult_lt_compat_r _ _ _ Hinv (ofPage_lt 0 p H)) as Hlt.
  change (ofPage 0) with 0 in Hlt. lra.
Qed.

Lemma pageProgress_below_95 p : (p <= n)%nat -> pageProgress p n < 95.
Proof.
  intros H. unfold pageProgress, Qdiv.
  pose proof (Qinv_lt_0_compat _ ofPage_total_pos) as Hinv.
  pose proof (Qmult_le_compat_r _ _ (/ ofPage n) (ofPage_le p n H)
                (Qlt_le_weak _ _ Hinv)) as Hle.
  assert (ofPage n * / ofPage n == 1) as H1.
  { apply Qmult_inv_r. intros E. pose proof ofPage_total_pos as Hp.
    rewrite E in Hp. now apply Qlt_irrefl in Hp. }
  rewrite H1 in Hle. lra.
Qed.

Lemma strictlyIncreasing_pages remaining p a :
  (1 <= p)%nat -> (p + remaining = S n)%nat ->
  a < pageProgress p n -> a < 95 ->
  strictlyIncreasing
    (a :: map (fun k => pageProgress k n) (seq p remaining) ++ [95; 100]).
Proof.
  revert p a. induction remaining as [| k IH]; intros p a Hp Hsum Ha Ha'.
  - cbn. split; [assumption |]. split; [reflexivity | exact I].
  - cbn [seq map app strictlyIncreasing]. split; [assumption |].
    apply IH; [lia | lia | |].
    + apply pageProgress_increasing. lia.
    + apply pageProgress_below_95. lia.
Qed.

End ProgressValues.

(** C3. A run of [extractTextWithProgress] that succeeds on a document of
    n >= 1 pages passes to [onProgress] the values 10, 20, 30, 40, then
    40 + (k/n) * 50 after each page k = 1 .. n, then 95 and 100, in this
    order and no others; each value is below the next, and the last one is
    100. *)
Theorem progress_values_of_a_successful_run
    (env : Environment) (f : File) (options : option TextExtractionOptions)
    (arrayBuffer : list N) (pdfDocument : PDFDocument)
    (t : jsstring) (log : list ProgressCall)
    (Hread : fileToArrayBuffer env f = Returns arrayBuffer)
    (Hload : getDocument env arrayBuffer = Returns pdfDocument)
    (Hpages : (1 <= numPages pdfDocument)%nat)
    (Hrun : extractTextWithProgress env (Some f) true options []
            = (Returns t, log)) :
  let n := numPages pdfDocument in
  percents log
  = ([10; 20; 30; 40]
       ++ map (fun k => 40 + (inject_Z (Z.of_nat k) / inject_Z (Z.of_nat n)) * 50)
              (seq 1 n)
       ++ [95; 100])%Q
  /\ strictlyIncreasing (percents log)
  /\ last (percents log) 0%Q = 100%Q.
Proof.
  intros n.
  assert (percents log
          = [10; 20; 30; 40]%Q
              ++ map (fun k => pageProgress k n) (seq 1 n) ++ [95; 100]%Q) as Hlog.
  { destruct (isValid (validatePDFFile (Some f))) eqn:Hvalid.
    - rewrite (extractTextWithProgress_run _ _ _ _ _ _ _ Hvalid Hread Hload)
        in Hrun.
      destruct (progressLoop _ _ _ _ _ _ _ _) as [[fullText | m] log1] eqn:E;
        [| discriminate].
      injection Hrun as _ <-.
      apply progressLoop_returns in E as [_ E]; [| lia].
      rewrite percents_app, E. reflexivity.
    - destruct (extractTextWithProgress_invalid env (Some f) true options []
                  Hvalid) as (m & log1 & E).
      congruence. }
  split; [exact Hlog |]. rewrite Hlog. split.
  - cbn [app strictlyIncreasing]. repeat (split; [reflexivity |]).
    apply strictlyIncreasing_pages with (p := 1%nat); try lia.
    + apply pageProgress_above_40; lia.
    + reflexivity.
  - rewrite app_assoc. change [95%Q; 100%Q] with ([95%Q] ++ [100%Q]).
    rewrite app_assoc. apply last_last.
Qed.

Lemma progress_values_of_a_successful_run_witness :
  percents (snd (extractTextWithProgress (Sample.opening Sample.twoPages)
                   (Some Sample.pdf) true None []))
  = ([10; 20; 30; 40]
       ++ map (fun k => 40 + (inject_Z (Z.of_nat k) / inject_Z (Z.of_nat 2)) * 50)
              (seq 1 2)
       ++ [95; 100])%Q
  /\ strictlyIncreasing
       (percents (snd (extractTextWithProgress (Sample.opening Sample.twoPages)
                         (Some Sample.pdf) true None [])))
  /\ last (percents (snd (extractTextWithProgress
                            (Sample.opening Sample.twoPages)
                            (Some Sample.pdf) true None []))) 0%Q
     = 100%Q.
Proof.
  apply (progress_values_of_a_successful_run (Sample.opening Sample.twoPages)
           Sample.pdf None [] Sample.twoPages
           (lit "one" ++ spec_marker 2 ++ lit "two")).
  - reflexivity.
  - reflexivity.
  - cbn. lia.
  - reflexivity.
Defined.

(* ===================================================================== *)
(** ** More on the normalizer: the shape of its output *)
(* ===================================================================== *)

Section NormalForm.

Lemma cleanExtractedText_fixed t :
  spacesCollapsed t -> blankLinesCollapsed t -> linesTrimmed t -> trim t = t ->
  cleanExtractedText t = t.
Proof.
  intros H1 H2 H3 H4. unfold cleanExtractedText.
  now rewrite (collapseSpaces_fixed t H1), (collapseBlankLines_fixed t H2),
    (trimLines_fixed t H3).
Qed.

Lemma spacesCollapsed_no_tab t : spacesCollapsed t -> ~ In TAB t.
Proof.
  induction t as [| c r IH]; intros H Hin; [exact Hin |].
  destruct H as [Hc Hr]. destruct Hin as [-> | Hin]; [| now apply IH].
  destruct (Hc eq_refl) as [E _]. discriminate E.
Qed.

Lemma blankLinesCollapsed_app_r a b :
  blankLinesCollapsed (a ++ b) -> blankLinesCollapsed b.
Proof.
  induction a as [| c a IH]; simpl; [trivial |]. intros [_ H]. now apply IH.
Qed.

(** The normalized text has no tab and no two spaces in a row. *)
Theorem cleanExtractedText_single_spaces (s : jsstring) :
  ~ In TAB (cleanExtractedText s)
  /\ forall a b, cleanExtractedText s <> a ++ SP :: SP :: b.
Proof.
  destruct (cleanExtractedText_normal s) as (H1 & _).
  split; [now apply spacesCollapsed_no_tab |].
  intros a b E. rewrite E in H1. apply spacesCollapsed_app_r in H1.
  destruct H1 as [Hc _]. destruct (Hc eq_refl) as [_ Hs]. discriminate Hs.
Qed.

(** The normalized text never has three line breaks in a row, nor three
    line breaks with only whitespace between them. *)
Theorem cleanExtractedText_no_blank_line_runs (s : jsstring) :
  forall a w1 w2 b,
    Forall (fun c => isWhiteSpace c = true) w1 ->
    Forall (fun c => isWhiteSpace c = true) w2 ->
    cleanExtractedText s <> a ++ NL :: w1 ++ NL :: w2 ++ NL :: b.
Proof.
  intros a w1 w2 b Hw1 Hw2 E.
  destruct (cleanExtractedText_normal s) as (_ & H2 & _).
  rewrite E in H2. apply blankLinesCollapsed_app_r in H2.
  destruct H2 as [Hc _]. specialize (Hc eq_refl).
  assert (forall w x, Forall (fun c => isWhiteSpace c = true) w ->
                      (leadingNewlines x <= leadingNewlines (w ++ x))%nat) as Hskip.
  { intros w x Hw. induction Hw as [| c w Hcw _ IH]; simpl; [lia |].
    rewrite Hcw. lia. }
  pose proof (Hskip w1 (NL :: w2 ++ NL :: b) Hw1) as L1.
  pose proof (Hskip w2 (NL :: b) Hw2) as L2.
  cbn [leadingNewlines] in L1, L2.
  change (isWhiteSpace NL) with true in L1, L2.
  change (isNewline NL) with true in L1, L2. cbn iota in L1, L2. lia.
Qed.

Lemma cleanExtractedText_no_blank_line_runs_witness :
  cleanExtractedText (lit "a" ++ [NL; NL; NL; NL] ++ lit "b")
  <> lit "a" ++ NL :: [] ++ NL :: [] ++ NL :: lit "b".
Proof.
  apply (cleanExtractedText_no_blank_line_runs
           (lit "a" ++ [NL; NL; NL; NL] ++ lit "b") (lit "a") [] [] (lit "b"));
    constructor.
Defined.

Lemma trimEnd_fixed_last r c : trimEnd (r ++ [c]) = r ++ [c] -> isWhiteSpace c = false.
Proof.
  intros H. destruct (isWhiteSpace c) eqn:E; [| reflexivity].
  rewrite trimEnd_app in H. cbn in H. rewrite E in H.
  pose proof (strips_length _ _ (strips_trimEnd r)) as Hl.
  rewrite H, length_app in Hl. simpl in Hl. lia.
Qed.

Lemma trimmed_noOuterSpace l : startsClean l -> trimEnd l = l -> noOuterSpace l.
Proof.
  intros Hs He. split.
  - intros c r ->. exact Hs.
  - intros r c ->. now apply trimEnd_fixed_last with r.
Qed.

Lemma trim_fixed_noOuterSpace t : trim t = t -> noOuterSpace t.
Proof.
  intros H.
  assert (startsClean t) as Hs.
  { rewrite <- H. apply startsClean_trimEnd, startsClean_trimStart. }
  apply trimmed_noOuterSpace; [exact Hs |].
  unfold trim in H. now rewrite trimStart_clean in H.
Qed.

(** The normalized text has no whitespace at either end, and neither has
    any of its lines. *)
Theorem cleanExtractedText_trimmed (s : jsstring) :
  noOuterSpace (cleanExtractedText s)
  /\ Forall noOuterSpace (split NL (cleanExtractedText s)).
Proof.
  destruct (cleanExtractedText_normal s) as (_ & _ & H3 & H4).
  split; [now apply trim_fixed_noOuterSpace |].
  destruct H3 as (ls & E & Hls). rewrite E.
  destruct ls as [| l ls].
  - cbn. constructor; [| constructor]. split; intros; [discriminate |].
    now destruct r.
  - rewrite split_join.
    + eapply Forall_impl; [| exact Hls].
      intros x (_ & Hs & He). now apply trimmed_noOuterSpace.
    + discriminate.
    + eapply Forall_impl; [| exact Hls]. intros x Hx. apply Hx.
Qed.

End NormalForm.

(* ===================================================================== *)
(** ** The normalizer keeps the words *)
(* ===================================================================== *)

Section Words.

Lemma runs_not_nil s : runs s <> [].
Proof.
  destruct s as [| c r]; simpl; [discriminate |].
  destruct (isWhiteSpace c); [discriminate |]. now destruct (runs r).
Qed.

Lemma runs_cons_word c r :
  isWhiteSpace c = false ->
  runs (c :: r) = (c :: hd [] (runs r)) :: tl (runs r).
Proof.
  intros H. simpl. rewrite H.
  destruct (runs r) eqn:E; [now apply runs_not_nil in E | reflexivity].
Qed.

Lemma words_shape s : words s = filter truthy [fst (shape s)] ++ snd (shape s).
Proof.
  unfold words, shape. destruct (runs s) as [| h t] eqn:E.
  - now apply runs_not_nil in E.
  - cbn [hd tl fst snd filter]. now destruct (truthy h).
Qed.

Lemma words_of_shape X r : shape X = shape r -> words X = words r.
Proof. intros H. now rewrite !words_shape, H. Qed.

Lemma shape_cons_ws c r : isWhiteSpace c = true -> shape (c :: r) = ([], words r).
Proof. intros H. unfold shape, words. simpl. now rewrite H. Qed.

Lemma shape_cons c X r : shape X = shape r -> shape (c :: X) = shape (c :: r).
Proof.
  intros H. destruct (isWhiteSpace c) eqn:E.
  - rewrite !shape_cons_ws by assumption. f_equal. now apply words_of_shape.
  - unfold shape in *. rewrite !runs_cons_word by assumption.
    cbn [hd tl]. injection H as -> ->. reflexivity.
Qed.

Lemma words_cons_ws c r : isWhiteSpace c = true -> words (c :: r) = words r.
Proof. intros H. unfold words. simpl. now rewrite H. Qed.

Lemma words_app_ws_l w b :
  Forall (fun c => isWhiteSpace c = true) w -> words (w ++ b) = words b.
Proof.
  induction 1 as [| c w Hc _ IH]; [reflexivity |].
  simpl app. now rewrite words_cons_ws.
Qed.

Lemma shape_app_ws_l w b :
  Forall (fun c => isWhiteSpace c = true) w -> w <> [] ->
  shape (w ++ b) = ([], words b).
Proof.
  intros Hw Hne. destruct Hw as [| c w Hc Hw]; [congruence |].
  simpl app. rewrite shape_cons_ws by assumption.
  now rewrite words_app_ws_l.
Qed.

Lemma runs_app_ws a c b :
  isWhiteSpace c = true -> runs (a ++ c :: b) = runs a ++ runs b.
Proof.
  intros Hc. induction a as [| d a IH]; simpl.
  - now rewrite Hc.
  - rewrite IH. destruct (isWhiteSpace d); [reflexivity |].
    destruct (runs a) eqn:E; [now apply runs_not_nil in E | reflexivity].
Qed.

Lemma words_app_ws a c b :
  isWhiteSpace c = true -> words (a ++ c :: b) = words a ++ words b.
Proof.
  intros Hc. unfold words. rewrite runs_app_ws by assumption.
  apply filter_app.
Qed.

Lemma concat_runs s : concat (runs s) = filter notWhiteSpace s.
Proof.
  induction s as [| c r IH]; [reflexivity |].
  simpl. unfold notWhiteSpace at 1.
  destruct (isWhiteSpace c); cbn [negb concat app]; [assumption |].
  destruct (runs r) eqn:E; [now apply runs_not_nil in E |].
  simpl in *. now rewrite IH.
Qed.

Lemma concat_words s : concat (words s) = filter notWhiteSpace s.
Proof.
  rewrite <- concat_runs. unfold words.
  induction (runs s) as [| h t IH]; [reflexivity |].
  simpl. destruct h; simpl; [assumption | now rewrite IH].
Qed.

(** *** The two replacements touch whitespace only *)

Lemma greedy_ws p k :
  (forall c, p c = true -> isWhiteSpace c = true) ->
  (forall s rest, k s = Some rest ->
     exists pre, s = pre ++ rest /\ Forall (fun c => isWhiteSpace c = true) pre) ->
  forall s rest, greedy p k s = Some rest ->
    exists pre, s = pre ++ rest /\ Forall (fun c => isWhiteSpace c = true) pre.
Proof.
  intros Hp Hk. induction s as [| c r IH]; simpl; intros rest H.
  - now apply Hk.
  - destruct (p c) eqn:E; [| now apply Hk].
    destruct (greedy p k r) as [x |] eqn:G; [| now apply Hk].
    injection H as <-. destruct (IH x eq_refl) as (pre & -> & Hpre).
    exists (c :: pre). split; [reflexivity |]. constructor; auto.
Qed.

Lemma re_match_ws re :
  wsOnly re ->
  forall s rest, re_match re s = Some rest ->
    exists pre, s = pre ++ rest /\ Forall (fun c => isWhiteSpace c = true) pre.
Proof.
  induction 1 as [| a k Ha Hk IH]; simpl.
  - intros s rest [= <-]. now exists [].
  - destruct a as [p | p].
    + intros [| c r] rest H; [discriminate |].
      destruct (p c) eqn:E; [| discriminate].
      destruct (IH _ _ H) as (pre & -> & Hpre).
      exists (c :: pre). split; [reflexivity |]. constructor; auto.
    + now apply greedy_ws.
Qed.

Lemma greedy_minLength p k m :
  (forall s rest, k s = Some rest -> (length rest + m <= length s)%nat) ->
  forall s rest, greedy p k s = Some rest -> (length rest + m <= length s)%nat.
Proof.
  intros Hk. induction s as [| c r IH]; simpl; intros rest H.
  - now apply Hk in H.
  - destruct (p c); [| now apply Hk in H].
    destruct (greedy p k r) as [x |] eqn:G; [| now apply Hk in H].
    injection H as <-. specialize (IH x eq_refl). lia.
Qed.

Lemma re_match_minLength re :
  forall s rest, re_match re s = Some rest ->
    (length rest + minLength re <= length s)%nat.
Proof.
  induction re as [| a k IH]; simpl.
  - intros s rest [= <-]. lia.
  - destruct a as [p | p].
    + intros [| c r] rest H; [discriminate |].
      destruct (p c); [| discriminate]. apply IH in H. simpl. lia.
    + now apply greedy_minLength.
Qed.

Lemma space_or_tab_is_whitespace c :
  isSpaceOrTab c = true -> isWhiteSpace c = true.
Proof.
  unfold isSpaceOrTab. intros H. apply orb_true_iff in H as [H | H];
    apply N.eqb_eq in H; subst c; reflexivity.
Qed.

Lemma wsOnly_re_spaces : wsOnly re_spaces.
Proof. repeat constructor; apply space_or_tab_is_whitespace. Qed.

Lemma wsOnly_re_blank_lines : wsOnly re_blank_lines.
Proof. repeat constructor; auto using newline_is_whitespace. Qed.

Section ReplaceWhitespace.

Variables (p : char -> bool) (k : regex) (repl : jsstring).
Hypothesis Hre : wsOnly (One p :: k).
Hypothesis Hrepl : Forall (fun c => isWhiteSpace c = true) repl.
Hypothesis Hne : repl <> [].

Lemma shape_replaceAll s :
  shape (replaceAll (One p :: k) repl s) = shape s.
Proof.
  remember (length s) as n eqn:Hn. revert s Hn.
  induction n as [n IH] using lt_wf_ind. intros [| c r] Hn.
  - now rewrite replaceAll_nil by apply consuming_One.
  - rewrite replaceAll_cons by apply consuming_One.
    destruct (re_match (One p :: k) (c :: r)) as [rest |] eqn:E.
    + pose proof (consuming_One _ _ _ _ E) as Hlt.
      destruct (re_match_ws _ Hre _ _ E) as (pre & Hpre & Hws).
      rewrite Hpre.
      assert (pre <> []) as Hpne.
      { intros ->. simpl in Hpre. rewrite <- Hpre in Hlt. lia. }
      rewrite !shape_app_ws_l by assumption.
      f_equal. apply words_of_shape. eapply IH; [| reflexivity]. lia.
    + apply shape_cons. eapply IH; [| reflexivity]. simpl in Hn. lia.
Qed.

Lemma length_replaceAll s :
  (length repl <= minLength (One p :: k))%nat ->
  (length (replaceAll (One p :: k) repl s) <= length s)%nat.
Proof.
  intros Hl. remember (length s) as n eqn:Hn. revert s Hn.
  induction n as [n IH] using lt_wf_ind. intros [| c r] Hn.
  - rewrite replaceAll_nil by apply consuming_One. simpl in *. lia.
  - rewrite replaceAll_cons by apply consuming_One.
    destruct (re_match (One p :: k) (c :: r)) as [rest |] eqn:E.
    + pose proof (re_match_minLength _ _ _ E) as Hlt.
      assert (length (replaceAll (One p :: k) repl rest) <= length rest)%nat
        by (eapply IH; [| reflexivity]; simpl in *; lia).
      rewrite length_app. lia.
    + assert (length (replaceAll (One p :: k) repl r) <= length r)%nat
        by (eapply IH; [| reflexivity]; simpl in Hn; lia).
      simpl in *. lia.
Qed.

End ReplaceWhitespace.

Lemma shape_trimEnd s : shape (trimEnd s) = shape s.
Proof.
  induction s as [| c r IH]; [reflexivity |].
  simpl trimEnd. destruct (trimEnd r) as [| d r'] eqn:E.
  - destruct (isWhiteSpace c) eqn:Ec.
    + rewrite shape_cons_ws by assumption.
      now rewrite <- (words_of_shape _ _ IH).
    + now apply (shape_cons c [] r).
  - now apply shape_cons.
Qed.

Lemma words_trimStart s : words (trimStart s) = words s.
Proof.
  unfold trimStart. induction s as [| c r IH]; [reflexivity |].
  simpl. destruct (isWhiteSpace c) eqn:E; [| reflexivity].
  now rewrite words_cons_ws.
Qed.

Lemma words_trim s : words (trim s) = words s.
Proof.
  unfold trim. rewrite (words_of_shape _ _ (shape_trimEnd _)).
  apply words_trimStart.
Qed.

Lemma words_join ls : words (join NL ls) = concat (map words ls).
Proof.
  induction ls as [| l ls IH]; [reflexivity |].
  destruct ls as [| l' ls].
  - simpl. now rewrite app_nil_r.
  - rewrite join_cons, words_app_ws by reflexivity.
    now rewrite IH.
Qed.

Lemma words_trimLines s : words (trimLines s) = words s.
Proof.
  unfold trimLines. rewrite <- (join_split NL s) at 2.
  rewrite !words_join, map_map. f_equal. apply map_ext. apply words_trim.
Qed.

End Words.

Lemma words_cleanExtractedText s : words (cleanExtractedText s) = words s.
Proof.
  unfold cleanExtractedText.
  rewrite words_trim, words_trimLines.
  transitivity (words (collapseSpaces s)); apply words_of_shape.
  - unfold collapseBlankLines, re_blank_lines.
    apply shape_replaceAll;
      [exact wsOnly_re_blank_lines | repeat constructor | discriminate].
  - unfold collapseSpaces, re_spaces.
    apply shape_replaceAll;
      [exact wsOnly_re_spaces | repeat constructor | discriminate].
Qed.

(** Normalizing neither merges nor splits words, and loses none: the
    words of the normalized text are the words of the text, in order. *)
Theorem cleanExtractedText_keeps_words (s : jsstring) :
  words (cleanExtractedText s) = words s.
Proof. apply words_cleanExtractedText. Qed.

Lemma characters_cleanExtractedText s :
  filter notWhiteSpace (cleanExtractedText s) = filter notWhiteSpace s.
Proof. now rewrite <- !concat_words, words_cleanExtractedText. Qed.

Lemma length_cleanExtractedText s :
  (length (cleanExtractedText s) <= length s)%nat.
Proof.
  unfold cleanExtractedText.
  pose proof (strips_length _ _ (strips_trim
    (trimLines (collapseBlankLines (collapseSpaces s))))) as H4.
  pose proof (strips_length _ _ (strips_trimLines
    (collapseBlankLines (collapseSpaces s)))) as H3.
  assert (length (collapseBlankLines (collapseSpaces s))
          <= length (collapseSpaces s))%nat as H2
    by (apply length_replaceAll; simpl; lia).
  assert (length (collapseSpaces s) <= length s)%nat as H1
    by (apply length_replaceAll; simpl; lia).
  lia.
Qed.

Lemma whitespace_filter_nil s :
  filter notWhiteSpace s = [] <-> Forall (fun c => isWhiteSpace c = true) s.
Proof.
  induction s as [| c r IH]; simpl.
  - split; constructor.
  - unfold notWhiteSpace at 1. destruct (isWhiteSpace c) eqn:E; cbn [negb].
    + rewrite IH. split; [now constructor | now inversion 1].
    + split; [discriminate | inversion 1; congruence].
Qed.

Lemma cleanExtractedText_nil_iff s :
  cleanExtractedText s = [] <-> Forall (fun c => isWhiteSpace c = true) s.
Proof.
  rewrite <- whitespace_filter_nil, <- characters_cleanExtractedText.
  split; [now intros -> |].
  intros H. apply whitespace_filter_nil, trim_whitespace in H.
  destruct (cleanExtractedText_normal s) as (_ & _ & _ & H4). congruence.
Qed.

(** Normalizing changes whitespace only: the other characters of the text
    are all kept, in their order; the text never gets longer; and the
    result is empty exactly when the text is whitespace only. *)
Theorem cleanExtractedText_changes_whitespace_only (s : jsstring) :
  filter notWhiteSpace (cleanExtractedText s) = filter notWhiteSpace s
  /\ (length (cleanExtractedText s) <= length s)%nat
  /\ (cleanExtractedText s = []
      <-> Forall (fun c => isWhiteSpace c = true) s).
Proof.
  split; [apply characters_cleanExtractedText |].
  split; [apply length_cleanExtractedText | apply cleanExtractedText_nil_iff].
Qed.

(* ===================================================================== *)
(** ** More on the reconstructor *)
(* ===================================================================== *)

Section ReconstructorText.

Lemma trimEnd_nil_whitespace s :
  trimEnd s = [] -> Forall (fun c => isWhiteSpace c = true) s.
Proof.
  induction s as [| c r IH]; simpl; [constructor |].
  destruct (trimEnd r) as [| d r']; [| discriminate].
  destruct (isWhiteSpace c) eqn:E; [| discriminate].
  intros _. constructor; auto.
Qed.

Lemma trim_nil_whitespace s :
  trim s = [] -> Forall (fun c => isWhiteSpace c = true) s.
Proof.
  unfold trim, trimStart. intros H. apply trimEnd_nil_whitespace in H.
  induction s as [| c r IH]; [constructor |].
  simpl in H. destruct (isWhiteSpace c) eqn:E.
  - constructor; auto.
  - inversion H; congruence.
Qed.

Lemma blank_item_whitespace item :
  negb (truthy (trim (str item))) = true ->
  Forall (fun c => isWhiteSpace c = true) (str item).
Proof.
  intros H. apply trim_nil_whitespace.
  destruct (trim (str item)); [reflexivity | discriminate].
Qed.

Lemma endsWith_inv c t : endsWith c t = true -> exists t', t = t' ++ [c].
Proof.
  unfold endsWith. intros H. destruct (rev t) as [| d x] eqn:E; [discriminate |].
  simpl in H. apply N.eqb_eq in H. subst d.
  exists (rev x). rewrite <- (rev_involutive t), E. reflexivity.
Qed.

Lemma startsWith_inv c t : startsWith c t = true -> exists t', t = c :: t'.
Proof.
  destruct t as [| d x]; [discriminate |]. simpl. intros H.
  apply N.eqb_eq in H. subst d. now exists x.
Qed.

Variable options : TextExtractionOptions.

(** One turn of the item loop adds the characters of the fragment and,
    before them, whitespace at most. *)
Lemma processItem_characters i item st :
  filter notWhiteSpace (text (processItem options i item st))
  = filter notWhiteSpace (text st) ++ filter notWhiteSpace (str item).
Proof.
  unfold processItem.
  destruct (negb (truthy (trim (str item)))) eqn:Hblank.
  - apply blank_item_whitespace, whitespace_filter_nil in Hblank.
    now rewrite Hblank, app_nil_r.
  - cbn [text]. rewrite processChars_copies.
    destruct (preserveFormatting options),
      (movedVertically (lastY st) (transform5 item)),
      (movedHorizontally (lastX st) (transform4 item)),
      (combineTextItems options && (0 <? i)%nat),
      (onSameLine (lastY st) (transform5 item));
      cbn [andb];
      repeat match goal with
             | |- context [if ?b then _ else _] => destruct b
             end;
      rewrite ?filter_app; cbn [filter notWhiteSpace isWhiteSpace];
      rewrite ?app_nil_r; reflexivity.
Qed.

Lemma processItems_characters i items st :
  filter notWhiteSpace (text (processItems options i items st))
  = filter notWhiteSpace (text st)
      ++ filter notWhiteSpace (concat (map str items)).
Proof.
  revert i st. induction items as [| item rest IH]; intros i st.
  - cbn. now rewrite app_nil_r.
  - cbn [processItems map concat].
    rewrite IH, processItem_characters, filter_app, app_assoc. reflexivity.
Qed.

End ReconstructorText.

Lemma trim_processTextContent textContent options :
  trim (processTextContent textContent options)
  = processTextContent textContent options.
Proof.
  destruct textContent as [items |]; [| reflexivity].
  unfold processTextContent. apply cleanExtractedText_normal.
Qed.

(** The text of a page is already normalized and trimmed, so the test
    [pageText.trim()] of the page loops is the test that the page text is
    not empty. *)
Theorem processTextContent_normalized
    (textContent : TextContent) (options : TextExtractionOptions) :
  let pageText := processTextContent textContent options in
  cleanExtractedText pageText = pageText
  /\ trim pageText = pageText
  /\ truthy (trim pageText) = truthy pageText.
Proof.
  cbn zeta.
  assert (trim (processTextContent textContent options)
          = processTextContent textContent options) as Ht.
  { destruct textContent as [items |]; [| reflexivity].
    unfold processTextContent. apply cleanExtractedText_normal. }
  split; [| split; [exact Ht | now rewrite Ht]].
  destruct textContent as [items |]; [| reflexivity].
  unfold processTextContent.
  destruct (cleanExtractedText_normal
              (text (processItems options 0 items initRecon)))
    as (H1 & H2 & H3 & H4).
  now apply cleanExtractedText_fixed.
Qed.

(** Reconstruction changes whitespace only: whatever the options and the
    positions, the characters of the page text other than whitespace are
    those of the fragments, in stream order; and the page text is empty
    exactly when every fragment is whitespace only. *)
Theorem processTextContent_keeps_characters
    (items : list TextItem) (options : TextExtractionOptions) :
  filter notWhiteSpace (processTextContent (Some items) options)
  = filter notWhiteSpace (concat (map str items))
  /\ (processTextContent (Some items) options = []
      <-> Forall (fun item => Forall (fun c => isWhiteSpace c = true) (str item))
            items).
Proof.
  assert (filter notWhiteSpace (processTextContent (Some items) options)
          = filter notWhiteSpace (concat (map str items))) as H.
  { unfold processTextContent.
    now rewrite characters_cleanExtractedText, processItems_characters. }
  split; [exact H |].
  unfold processTextContent in *.
  rewrite cleanExtractedText_nil_iff, <- whitespace_filter_nil.
  rewrite processItems_characters. cbn [initRecon text filter app].
  rewrite whitespace_filter_nil. clear H.
  induction items as [| item rest IH]; cbn [map concat].
  - split; constructor.
  - rewrite Forall_app, IH. split.
    + intros [Ha Hb]. now constructor.
    + inversion 1; subst. now split.
Qed.

Section ReconstructorWords.

Variable options : TextExtractionOptions.
Hypothesis Hpreserve : preserveFormatting options = true.
Hypothesis Hcombine : combineTextItems options = true.

Lemma words_whitespace s :
  Forall (fun c => isWhiteSpace c = true) s -> words s = [].
Proof.
  intros H. rewrite <- (app_nil_r s). now rewrite words_app_ws_l.
Qed.

Lemma words_snoc_ws t c :
  isWhiteSpace c = true -> words (t ++ [c]) = words t.
Proof. intros H. rewrite words_app_ws by assumption. apply app_nil_r. Qed.

(** With both options on, whatever is put between the text so far and a
    fragment that is kept, whitespace stands between the two. *)
Lemma processItem_words i item st :
  (lastY st = None /\ text st = []) \/ (lastY st <> None /\ (0 < i)%nat) ->
  words (text (processItem options i item st))
  = words (text st) ++ words (str item)
  /\ ((lastY (processItem options i item st) = None
       /\ text (processItem options i item st) = [])
      \/ (lastY (processItem options i item st) <> None)).
Proof.
  intros Hinv. unfold processItem.
  destruct (negb (truthy (trim (str item)))) eqn:Hblank.
  - apply blank_item_whitespace, words_whitespace in Hblank.
    rewrite Hblank, app_nil_r. split; [reflexivity |].
    destruct Hinv as [H | [H _]]; auto.
  - cbn [text lastY]. split; [| right; discriminate].
    rewrite processChars_copies, Hpreserve, Hcombine. cbn [andb].
    destruct Hinv as [[Hy Ht] | [Hy Hi]].
    + rewrite Hy, Ht. cbn [movedVertically onSameLine andb app].
      destruct (0 <? i)%nat;
        destruct (movedHorizontally (lastX st) (transform4 item));
        cbn [app]; try reflexivity; now rewrite words_cons_ws.
    + apply Nat.ltb_lt in Hi. rewrite Hi.
      destruct (lastY st) as [y |]; [| congruence].
      unfold movedVertically, onSameLine, Qgtb.
      destruct (Qle_bool (Qabs (transform5 item - y)) 5); cbn [negb andb].
      * (* same line *)
        destruct (movedHorizontally (lastX st) (transform4 item)).
        -- assert (endsWith SP (text st ++ [SP]) = true) as ->.
           { unfold endsWith. now rewrite rev_app_distr. }
           cbn [negb andb]. rewrite <- app_assoc. cbn [app].
           now rewrite words_app_ws.
        -- destruct (endsWith SP (text st)) eqn:Ee; cbn [negb andb].
           ++ apply endsWith_inv in Ee as [t' ->].
              rewrite <- app_assoc. cbn [app].
              rewrite words_app_ws by reflexivity.
              now rewrite words_snoc_ws.
           ++ destruct (startsWith SP (str item)) eqn:Es; cbn [negb].
              ** apply startsWith_inv in Es as [p' ->].
                 rewrite words_app_ws by reflexivity.
                 now rewrite words_cons_ws.
              ** rewrite <- app_assoc. cbn [app].
                 now rewrite words_app_ws.
      * (* a new line *)
        rewrite <- app_assoc. cbn [app]. now rewrite words_app_ws.
Qed.

Lemma processItems_words i items st :
  (lastY st = None /\ text st = []) \/ (lastY st <> None /\ (0 < i)%nat) ->
  words (text (processItems options i items st))
  = words (text st) ++ concat (map (fun item => words (str item)) items).
Proof.
  revert i st. induction items as [| item rest IH]; intros i st Hinv.
  - cbn. now rewrite app_nil_r.
  - cbn [processItems map concat].
    destruct (processItem_words i item st Hinv) as [Hw Hinv'].
    rewrite IH, Hw, app_assoc; [reflexivity |].
    destruct Hinv' as [H | H]; [now left | right; split; [exact H | lia]].
Qed.

End ReconstructorWords.

Lemma words_processTextContent items options :
  preserveFormatting options = true ->
  combineTextItems options = true ->
  words (processTextContent (Some items) options)
  = concat (map (fun item => words (str item)) items).
Proof.
  intros Hpreserve Hcombine. unfold processTextContent.
  rewrite words_cleanExtractedText, processItems_words; auto.
Qed.

(** With [preserveFormatting] and [combineTextItems] both on, as by
    default, reconstruction never glues two fragments into one word: the
    words of the page text are the words of the fragments, in stream
    order. *)
Theorem processTextContent_keeps_words
    (items : list TextItem) (options : TextExtractionOptions)
    (Hpreserve : preserveFormatting options = true)
    (Hcombine : combineTextItems options = true) :
  words (processTextContent (Some items) options)
  = concat (map (fun item => words (str item)) items).
Proof. now apply words_processTextContent. Qed.

Lemma processTextContent_keeps_words_witness :
  words (processTextContent
           (Some [Sample.hello; Sample.blank; Sample.world None; Sample.line2])
           defaultOptions)
  = [lit "Hello"; lit "World"; lit "Line2"].
Proof.
  apply (processTextContent_keeps_words
           [Sample.hello; Sample.blank; Sample.world None; Sample.line2]
           defaultOptions); reflexivity.
Defined.

(* ===================================================================== *)
(** ** More on the validation gate and on the detailed extraction *)
(* ===================================================================== *)

(** A descriptor is accepted exactly when it exists, is of type
    "application/pdf" and has a size from 1 to 52,428,800 bytes; and a
    rejection always comes with its reason, an acceptance never. *)
Theorem validatePDFFile_accepts_iff (file : option File) :
  (isValid (validatePDFFile file) = true
   <-> exists f, file = Some f /\ type f = lit "application/pdf"
                 /\ 0 < size f <= 52428800)
  /\ (error (validatePDFFile file) = None
      <-> isValid (validatePDFFile file) = true).
Proof.
  destruct file as [f |]; cbn [validatePDFFile].
  2: { split; split; try discriminate. intros (f & Hf & _). discriminate. }
  unfold JS.eqb.
  destruct (list_eq_dec N.eq_dec (type f) (lit "application/pdf")) as [Et | Et];
    cbn [negb].
  2: { split; split; try discriminate. intros (g & [= <-] & Hg & _). contradiction. }
  rewrite maxFileSize_bytes.
  destruct (N.ltb_spec 52428800 (size f)) as [Hs | Hs].
  { split; split; try discriminate. intros (g & [= <-] & _ & Hg). lia. }
  destruct (N.eqb_spec (size f) 0) as [Hz | Hz].
  { split; split; try discriminate. intros (g & [= <-] & _ & Hg). lia. }
  cbn. split; split; try reflexivity. intros _. exists f. repeat split; try assumption. lia.
Qed.

Lemma processItem_ignores_metadata preserve combine m m' i item st :
  processItem {| preserveFormatting := preserve; includeMetadata := m;
                 combineTextItems := combine |} i item st
  = processItem {| preserveFormatting := preserve; includeMetadata := m';
                   combineTextItems := combine |} i item st.
Proof. reflexivity. Qed.

Lemma processTextContent_ignores_metadata preserve combine m m' textContent :
  processTextContent textContent
    {| preserveFormatting := preserve; includeMetadata := m;
       combineTextItems := combine |}
  = processTextContent textContent
      {| preserveFormatting := preserve; includeMetadata := m';
         combineTextItems := combine |}.
Proof.
  destruct textContent as [items |]; [| reflexivity].
  unfold processTextContent. do 2 f_equal.
  generalize 0%nat initRecon.
  induction items as [| item rest IH]; intros i st; [reflexivity |].
  cbn [processItems]. rewrite IH.
  now rewrite (processItem_ignores_metadata preserve combine m m').
Qed.

(** The detailed extraction rejects exactly when the bytes of the file
    cannot be read or cannot be opened as a document, with the message
    "PDF processing failed: " followed by the cause; [extractTextFromPDF]
    rejects in the same cases, always with its one fixed message. *)
Theorem extraction_rejects_iff
    (env : Environment) (file : File) (options : TextExtractionOptions)
    (message : jsstring) :
  (extractDetailedTextFromPDF env file options = Throws message
   <-> exists cause,
         message = lit "PDF processing failed: " ++ cause
         /\ (fileToArrayBuffer env file = Throws cause
             \/ exists arrayBuffer,
                  fileToArrayBuffer env file = Returns arrayBuffer
                  /\ getDocument env arrayBuffer = Throws cause))
  /\ (extractTextFromPDF env file options = Throws message
      <-> message = lit "Failed to extract text from PDF. Please ensure the file is a valid PDF document."
          /\ exists cause, extractDetailedTextFromPDF env file options = Throws cause).
Proof.
  split.
  - destruct (fileToArrayBuffer env file) as [arrayBuffer | m] eqn:Hread.
    + destruct (getDocument env arrayBuffer) as [pdfDocument | m] eqn:Hload.
      * rewrite (extractDetailedTextFromPDF_run _ _ _ _ _ Hread Hload).
        split; [discriminate |].
        intros (cause & _ & [H | (ab & [= <-] & H)]); congruence.
      * unfold extractDetailedTextFromPDF. rewrite Hread, Hload. split.
        -- intros [= <-]. exists m. split; [reflexivity |]. right. now exists arrayBuffer.
        -- intros (cause & -> & [H | (ab & [= <-] & H)]); congruence.
    + unfold extractDetailedTextFromPDF. rewrite Hread. split.
      * intros [= <-]. exists m. auto.
      * intros (cause & -> & [H | (ab & H & _)]); congruence.
  - unfold extractTextFromPDF.
    destruct (extractDetailedTextFromPDF env file options) as [data | m]; split.
    + discriminate.
    + intros (_ & cause & H). discriminate.
    + intros [= <-]. split; [reflexivity | now exists m].
    + now intros [-> _].
Qed.

(** Metadata never blocks the extraction and never changes the text.
    When the document opens: without [includeMetadata] the result has no
    metadata; with it the metadata always has the page count, and only the
    page count when reading the metadata fails; the text and the page list
    are the same with and without [includeMetadata]. *)
Theorem metadata_is_informational
    (env : Environment) (file : File) (preserve combine : bool)
    (arrayBuffer : list N) (pdfDocument : PDFDocument)
    (Hread : fileToArrayBuffer env file = Returns arrayBuffer)
    (Hload : getDocument env arrayBuffer = Returns pdfDocument) :
  exists without with_,
    extractDetailedTextFromPDF env file
      {| preserveFormatting := preserve; includeMetadata := false;
         combineTextItems := combine |} = Returns without
    /\ extractDetailedTextFromPDF env file
         {| preserveFormatting := preserve; includeMetadata := true;
            combineTextItems := combine |} = Returns with_
    /\ ExtractedTextData.metadata without = None
    /\ (exists m, ExtractedTextData.metadata with_ = Some m
                  /\ pageCount m = numPages pdfDocument
                  /\ (forall cause, getMetadata pdfDocument = Throws cause ->
                        m = {| pageCount := numPages pdfDocument;
                               title := None; author := None; subject := None;
                               creator := None; producer := None;
                               creationDate := None;
                               modificationDate := None |}))
    /\ ExtractedTextData.text without = ExtractedTextData.text with_
    /\ ExtractedTextData.pages without = ExtractedTextData.pages with_.
Proof.
  do 2 eexists.
  split; [eapply extractDetailedTextFromPDF_run; eassumption |].
  split; [eapply extractDetailedTextFromPDF_run; eassumption |].
  cbn [ExtractedTextData.metadata ExtractedTextData.text
         ExtractedTextData.pages includeMetadata].
  split; [reflexivity |]. split.
  - eexists. split; [reflexivity |]. unfold readMetadata.
    destruct (getMetadata pdfDocument); split; try reflexivity; discriminate.
  - assert (forall k,
               pageEntry {| preserveFormatting := preserve; includeMetadata := false;
                            combineTextItems := combine |} pdfDocument k
               = pageEntry {| preserveFormatting := preserve; includeMetadata := true;
                              combineTextItems := combine |} pdfDocument k) as He.
    { intros k. unfold pageEntry.
      destruct (fetchTextContent pdfDocument k); [| reflexivity].
      now rewrite (processTextContent_ignores_metadata preserve combine false true). }
    split.
    + f_equal. unfold spec_fullText. f_equal. apply map_ext. intros k.
      unfold spec_contribution.
      destruct (fetchTextContent pdfDocument k); [| reflexivity].
      now rewrite (processTextContent_ignores_metadata preserve combine false true).
    + apply map_ext. exact He.
Qed.

Lemma metadata_is_informational_witness :
  exists without with_,
    extractDetailedTextFromPDF (Sample.opening Sample.threePages) Sample.pdf
      {| preserveFormatting := true; includeMetadata := false;
         combineTextItems := true |} = Returns without
    /\ extractDetailedTextFromPDF (Sample.opening Sample.threePages) Sample.pdf
         {| preserveFormatting := true; includeMetadata := true;
            combineTextItems := true |} = Returns with_
    /\ ExtractedTextData.metadata without = None
    /\ (exists m, ExtractedTextData.metadata with_ = Some m
                  /\ pageCount m = numPages Sample.threePages
                  /\ (forall cause, getMetadata Sample.threePages = Throws cause ->
                        m = {| pageCount := numPages Sample.threePages;
                               title := None; author := None; subject := None;
                               creator := None; producer := None;
                               creationDate := None;
                               modificationDate := None |}))
    /\ ExtractedTextData.text without = ExtractedTextData.text with_
    /\ ExtractedTextData.pages without = ExtractedTextData.pages with_.
Proof.
  apply (metadata_is_informational (Sample.opening Sample.threePages) Sample.pdf
           true true [] Sample.threePages); reflexivity.
Defined.

(* ===================================================================== *)
(** ** More on the progress-observed extraction *)
(* ===================================================================== *)

Section ProgressRuns.

Variables (options : TextExtractionOptions) (pdfDocument : PDFDocument)
          (totalPages : nat).

(** When every page can be read the loop returns. *)
Lemma progressLoop_total onProgress remaining pageNum fullText log :
  (forall k, In k (seq pageNum remaining) ->
             exists textContent,
               fetchTextContent pdfDocument k = Returns textContent) ->
  exists t log',
    progressLoop onProgress options pdfDocument totalPages remaining pageNum
      fullText log = (Returns t, log').
Proof.
  revert pageNum fullText log.
  induction remaining as [| k IH]; intros pageNum fullText log Hall.
  - now exists fullText, log.
  - rewrite progressLoop_step.
    destruct (Hall pageNum) as [textContent ->]; [now left |].
    apply IH. intros j Hj. apply Hall. now right.
Qed.

(** The loop without a callback leaves the log alone and comes to what
    the loop with a callback comes to. *)
Lemma progressLoop_unobserved remaining pageNum fullText log log0 :
  snd (progressLoop false options pdfDocument totalPages remaining pageNum
         fullText log) = log
  /\ fst (progressLoop false options pdfDocument totalPages remaining pageNum
            fullText log)
     = fst (progressLoop true options pdfDocument totalPages remaining pageNum
              fullText log0).
Proof.
  revert pageNum fullText log log0.
  induction remaining as [| k IH]; intros pageNum fullText log log0.
  - split; reflexivity.
  - rewrite !progressLoop_step.
    destruct (fetchTextContent pdfDocument pageNum); [apply IH | split; reflexivity].
Qed.

(** Whatever the loop comes to, it has reported the pages it has read,
    in order, from the first one. *)
Lemma progressLoop_reports remaining pageNum fullText log :
  exists j,
    (j <= remaining)%nat
    /\ percents (snd (progressLoop true options pdfDocument totalPages
                        remaining pageNum fullText log))
       = percents log ++ map (fun k => pageProgress k totalPages) (seq pageNum j).
Proof.
  revert pageNum fullText log.
  induction remaining as [| k IH]; intros pageNum fullText log.
  - exists 0%nat. cbn. now rewrite app_nil_r.
  - rewrite progressLoop_step.
    destruct (fetchTextContent pdfDocument pageNum) as [textContent | m].
    + match goal with
      | |- context [progressLoop true _ _ _ k (S pageNum) ?ft ?lg] =>
          destruct (IH (S pageNum) ft lg) as (j & Hj & E)
      end.
      exists (S j). split; [lia |]. rewrite E, percents_app, <- app_assoc.
      reflexivity.
    + exists 0%nat. split; [lia |]. cbn. now rewrite app_nil_r.
Qed.

End ProgressRuns.

Lemma extractTextWithProgress_returns_inv env f onProgress options log t log' :
  extractTextWithProgress env (Some f) onProgress options log
  = (Returns t, log') ->
  isValid (validatePDFFile (Some f)) = true
  /\ exists arrayBuffer pdfDocument,
       fileToArrayBuffer env f = Returns arrayBuffer
       /\ getDocument env arrayBuffer = Returns pdfDocument
       /\ forall k, (1 <= k <= numPages pdfDocument)%nat ->
            exists textContent,
              fetchTextContent pdfDocument k = Returns textContent.
Proof.
  intros Hrun.
  destruct (isValid (validatePDFFile (Some f))) eqn:Hvalid.
  2: { destruct (extractTextWithProgress_invalid env (Some f) onProgress
                   options log Hvalid) as (m & l & E). congruence. }
  split; [reflexivity |].
  destruct (fileToArrayBuffer env f) as [arrayBuffer | m] eqn:Hread.
  2: { unfold extractTextWithProgress, tryCatch, bind, report, await, throw
         in Hrun. rewrite Hvalid, Hread in Hrun. discriminate. }
  destruct (getDocument env arrayBuffer) as [pdfDocument | m] eqn:Hload.
  2: { unfold extractTextWithProgress, tryCatch, bind, report, await, throw
         in Hrun. rewrite Hvalid, Hread, Hload in Hrun. discriminate. }
  exists arrayBuffer, pdfDocument.
  split; [reflexivity |]. split; [exact Hload |].
  intros k Hk.
  destruct (fetchTextContent pdfDocument k) as [textContent | m] eqn:Hk';
    [now exists textContent |].
  destruct (extractTextWithProgress_rejects env f onProgress options log
              arrayBuffer pdfDocument k m Hread Hload Hk Hk')
    as (m' & l & E).
  congruence.
Qed.

(** [extractTextWithProgress] resolves exactly when the file passes the
    validation, its bytes can be read and opened, and every page of the
    document can be read. *)
Theorem extractTextWithProgress_resolves_iff
    (env : Environment) (f : File) (onProgress : bool)
    (options : option TextExtractionOptions) (log : list ProgressCall) :
  (exists t log',
      extractTextWithProgress env (Some f) onProgress options log
      = (Returns t, log'))
  <-> isValid (validatePDFFile (Some f)) = true
      /\ exists arrayBuffer pdfDocument,
           fileToArrayBuffer env f = Returns arrayBuffer
           /\ getDocument env arrayBuffer = Returns pdfDocument
           /\ forall k, (1 <= k <= numPages pdfDocument)%nat ->
                exists textContent,
                  fetchTextContent pdfDocument k = Returns textContent.
Proof.
  split.
  - intros (t & log' & Hrun).
    now apply extractTextWithProgress_returns_inv in Hrun.
  - intros (Hvalid & arrayBuffer & pdfDocument & Hread & Hload & Hall).
    rewrite (extractTextWithProgress_run _ _ _ _ _ _ _ Hvalid Hread Hload).
    match goal with
    | |- context [progressLoop ?a ?b ?c ?d ?e ?g ?h ?i] =>
        destruct (progressLoop_total b c d a e g h i) as (t & log' & E)
    end.
    + intros k Hk. apply in_seq in Hk. apply Hall. lia.
    + rewrite E. eauto.
Qed.

Lemma extractTextWithProgress_text env f onProgress options log log' t :
  extractTextWithProgress env (Some f) onProgress options log
  = (Returns t, log') ->
  extractTextFromPDF env f (optionsOrDefault options) = Returns t.
Proof.
  intros Hrun.
  destruct (extractTextWithProgress_returns_inv _ _ _ _ _ _ _ Hrun)
    as (Hvalid & arrayBuffer & pdfDocument & Hread & Hload & _).
  rewrite (extractTextFromPDF_resolves _ _ _ _ _ Hread Hload).
  rewrite (extractTextWithProgress_run _ _ _ _ _ _ _ Hvalid Hread Hload) in Hrun.
  destruct (progressLoop _ _ _ _ _ _ _ _) as [[fullText | m] log1] eqn:E;
    [| discriminate].
  injection Hrun as <- _.
  apply progressLoop_returns in E as [-> _]; [| lia].
  reflexivity.
Qed.

(** When [extractTextWithProgress] resolves, its text is the text that
    [extractTextFromPDF] resolves with for the same file and options (the
    default ones when none are given). *)
Theorem extractTextWithProgress_agrees_with_extractTextFromPDF
    (env : Environment) (f : File) (onProgress : bool)
    (options : option TextExtractionOptions) (log log' : list ProgressCall)
    (t : jsstring)
    (Hrun : extractTextWithProgress env (Some f) onProgress options log
            = (Returns t, log')) :
  extractTextFromPDF env f (optionsOrDefault options) = Returns t.
Proof. eapply extractTextWithProgress_text; eassumption. Qed.

Lemma extractTextWithProgress_agrees_with_extractTextFromPDF_witness :
  extractTextFromPDF (Sample.opening Sample.twoPages) Sample.pdf
    (optionsOrDefault None)
  = Returns (lit "one" ++ pageSeparator 2 ++ lit "two").
Proof.
  apply (extractTextWithProgress_agrees_with_extractTextFromPDF
           (Sample.opening Sample.twoPages) Sample.pdf true None []
           (snd (extractTextWithProgress (Sample.opening Sample.twoPages)
                   (Some Sample.pdf) true None []))).
  reflexivity.
Defined.

Lemma validatePDFFile_reason file :
  isValid (validatePDFFile file) = false ->
  exists reason, error (validatePDFFile file) = Some reason.
Proof.
  destruct file as [f |]; unfold validatePDFFile; [| cbn; eauto].
  destruct (negb (JS.eqb (type f) (lit "application/pdf"))); [cbn; eauto |].
  destruct (maxFileSize <? size f); [cbn; eauto |].
  destruct (size f =? 0); cbn; [eauto | discriminate].
Qed.

(** A file that fails the validation is rejected before anything is read:
    whatever the environment, the call rejects with "PDF text extraction
    failed: " followed by the reason of the validation gate, after the one
    progress report 10. *)
Theorem extractTextWithProgress_validates_first
    (env : Environment) (file : option File)
    (options : option TextExtractionOptions) (log : list ProgressCall)
    (Hinvalid : isValid (validatePDFFile file) = false) :
  exists reason,
    error (validatePDFFile file) = Some reason
    /\ extractTextWithProgress env file true options log
       = (Throws (lit "PDF text extraction failed: " ++ reason),
          log ++ [(10%Q, lit "Validating PDF file...")]).
Proof.
  destruct (validatePDFFile_reason file Hinvalid) as [reason Hreason].
  exists reason. split; [exact Hreason |].
  unfold extractTextWithProgress, tryCatch, bind, report, throw.
  now rewrite Hinvalid, Hreason.
Qed.

Lemma extractTextWithProgress_validates_first_witness :
  exists reason,
    error (validatePDFFile None) = Some reason
    /\ extractTextWithProgress (Sample.opening Sample.twoPages) None true None []
       = (Throws (lit "PDF text extraction failed: " ++ reason),
          [] ++ [(10%Q, lit "Validating PDF file...")]).
Proof.
  apply (extractTextWithProgress_validates_first
           (Sample.opening Sample.twoPages) None None []).
  reflexivity.
Defined.

(** Observing the progress changes nothing else: without a callback the
    call comes to the same outcome as with one, and reports nothing. *)
Theorem extractTextWithProgress_callback_is_optional
    (env : Environment) (file : option File)
    (options : option TextExtractionOptions) (log log0 : list ProgressCall) :
  fst (extractTextWithProgress env file false options log)
  = fst (extractTextWithProgress env file true options log0)
  /\ snd (extractTextWithProgress env file false options log) = log.
Proof.
  destruct (isValid (validatePDFFile file)) eqn:Hvalid.
  - destruct file as [f |]; [| discriminate].
    destruct (fileToArrayBuffer env f) as [arrayBuffer | m] eqn:Hread.
    2: { unfold extractTextWithProgress, tryCatch, bind, report, await, throw.
         rewrite Hvalid, Hread. split; reflexivity. }
    destruct (getDocument env arrayBuffer) as [pdfDocument | m] eqn:Hload.
    2: { unfold extractTextWithProgress, tryCatch, bind, report, await, throw.
         rewrite Hvalid, Hread, Hload. split; reflexivity. }
    rewrite !(extractTextWithProgress_run _ _ _ _ _ _ _ Hvalid Hread Hload).
    match goal with
    | |- context [progressLoop true ?b ?c ?d ?e ?g ?h ?i] =>
        destruct (progressLoop_unobserved b c d e g h log i) as [Hs Hf];
        destruct (progressLoop true b c d e g h i) as [[t1 | m1] l1]
    end;
      destruct (progressLoop false _ _ _ _ _ _ _) as [[t0 | m0] l0];
      cbn [fst snd] in *; try discriminate; split; congruence.
  - unfold extractTextWithProgress, tryCatch, bind, report, throw.
    rewrite Hvalid. split; reflexivity.
Qed.

Section ProgressBounds.

Local Open Scope Q_scope.

Lemma strictlyIncreasing_app_l l l' :
  strictlyIncreasing (l ++ l') -> strictlyIncreasing l.
Proof.
  induction l as [| a r IH]; [intros _; exact I |].
  destruct r as [| b r']; [intros _; exact I |].
  cbn [app strictlyIncreasing]. intros [Hab H]. split; [assumption |].
  now apply IH.
Qed.

(** The values reported up to some page of a document of [n] pages. *)
Lemma strictlyIncreasing_reported n j :
  (j <= n)%nat ->
  strictlyIncreasing
    ([10; 20; 30; 40] ++ map (fun k => pageProgress k n) (seq 1 j)).
Proof.
  intros Hj. destruct j as [| j].
  - cbn. repeat split; reflexivity.
  - assert (1 <= n)%nat as Hn by lia.
    assert (strictlyIncreasing
              ([10; 20; 30; 40]
                 ++ map (fun k => pageProgress k n) (seq 1 n) ++ [95; 100]))
      as Hfull.
    { cbn [app strictlyIncreasing]. repeat (split; [reflexivity |]).
      apply strictlyIncreasing_pages with (p := 1%nat); try lia.
      - apply pageProgress_above_40; lia.
      - reflexivity. }
    assert (seq 1 n = seq 1 (S j) ++ seq (1 + S j) (n - S j)) as Hseq
      by (rewrite <- seq_app; f_equal; lia).
    rewrite Hseq, map_app, <- app_assoc, app_assoc in Hfull.
    now apply strictlyIncreasing_app_l in Hfull.
Qed.

Lemma bounded_reported n j :
  (j <= n)%nat ->
  Forall (fun q => 10 <= q <= 100)
    (map (fun k => pageProgress k n) (seq 1 j)).
Proof.
  intros Hj. apply Forall_forall. intros q Hq.
  apply in_map_iff in Hq as (k & <- & Hk). apply in_seq in Hk.
  assert (1 <= n)%nat as Hn by lia.
  pose proof (pageProgress_above_40 n Hn k ltac:(lia)).
  pose proof (pageProgress_below_95 n Hn k ltac:(lia)).
  split; lra.
Qed.

Lemma bounded_milestones :
  Forall (fun q => 10 <= q <= 100) [10; 20; 30; 40]
  /\ Forall (fun q => 10 <= q <= 100) [95; 100].
Proof. split; repeat constructor; cbn; discriminate. Qed.

End ProgressBounds.

Lemma progress_log_facts env file options :
  let log := snd (extractTextWithProgress env file true options []) in
  hd_error (percents log) = Some 10%Q
  /\ strictlyIncreasing (percents log)
  /\ Forall (fun q => 10 <= q <= 100)%Q (percents log).
Proof.
  cbn zeta.
  destruct (isValid (validatePDFFile file)) eqn:Hvalid.
  2: { destruct (extractTextWithProgress_validates_first env file options []
                   Hvalid) as (reason & _ & ->).
       cbn. repeat split. repeat constructor; cbn; discriminate. }
  destruct file as [f |]; [| discriminate].
  destruct (fileToArrayBuffer env f) as [arrayBuffer | m] eqn:Hread.
  2: { unfold extractTextWithProgress, tryCatch, bind, report, await, throw.
       rewrite Hvalid, Hread. cbn. repeat split; try reflexivity.
       repeat constructor; cbn; discriminate. }
  destruct (getDocument env arrayBuffer) as [pdfDocument | m] eqn:Hload.
  2: { unfold extractTextWithProgress, tryCatch, bind, report, await, throw.
       rewrite Hvalid, Hread, Hload. cbn. repeat split; try reflexivity.
       repeat constructor; cbn; discriminate. }
  rewrite (extractTextWithProgress_run _ _ _ _ _ _ _ Hvalid Hread Hload).
  set (n := numPages pdfDocument).
  destruct bounded_milestones as [Hb1 Hb2].
  match goal with
  | |- context [progressLoop true ?b ?c ?d ?e ?g ?h ?i] =>
      destruct (progressLoop_reports b c d e g h i) as (j & Hj & E);
      destruct (progressLoop true b c d e g h i) as [[t | m] log1] eqn:Hloop
  end; cbn [snd] in *.
  - (* every page was read *)
    apply progressLoop_returns in Hloop as [_ Hall]; [| lia].
    rewrite percents_app, Hall. cbn [app percents map fst hd_error].
    split; [reflexivity |]. split.
    + destruct n as [| n'] eqn:En.
      * cbn. repeat split; reflexivity.
      * cbn [strictlyIncreasing]. repeat (split; [reflexivity |]).
        apply strictlyIncreasing_pages with (p := 1%nat); try lia.
        -- apply pageProgress_above_40; lia.
        -- reflexivity.
    + repeat (constructor; [cbn; split; discriminate |]).
      apply Forall_app. split; [now apply bounded_reported | exact Hb2].
  - (* a page failed *)
    rewrite E. cbn [app percents map fst hd_error].
    split; [reflexivity |]. split.
    + now apply (strictlyIncreasing_reported n j).
    + repeat (constructor; [cbn; split; discriminate |]).
      now apply bounded_reported.
Qed.

(** Whatever a run of [extractTextWithProgress] comes to, success or
    failure at any stage, the values it has passed to [onProgress] start
    with 10, lie between 10 and 100, and each is below the next. *)
Theorem progress_is_increasing_in_every_run
    (env : Environment) (file : option File)
    (options : option TextExtractionOptions) :
  let log := snd (extractTextWithProgress env file true options []) in
  hd_error (percents log) = Some 10%Q
  /\ strictlyIncreasing (percents log)
  /\ Forall (fun q => 10 <= q <= 100)%Q (percents log).
Proof. apply progress_log_facts. Qed.

(* ===================================================================== *)
(** ** The page-boundary marker *)
(* ===================================================================== *)

Section MarkerInText.

Lemma trimEnd_of_trimmed t : trim t = t -> trimEnd t = t.
Proof. intros H. rewrite <- H. unfold trim. apply trimEnd_idem. Qed.

Lemma trimEnd_app_fixed a b :
  trimEnd b = b -> b <> [] -> trimEnd (a ++ b) = a ++ b.
Proof.
  intros Hb Hne. rewrite trimEnd_app, Hb. destruct b; [congruence | reflexivity].
Qed.

Lemma trimStart_nil_whitespace s :
  trimStart s = [] -> Forall (fun c => isWhiteSpace c = true) s.
Proof.
  unfold trimStart. induction s as [| c r IH]; simpl; [constructor |].
  destruct (isWhiteSpace c) eqn:E; [| discriminate].
  intros H. constructor; auto.
Qed.

Lemma trimStart_app_started a b :
  trimStart a <> [] -> trimStart (a ++ b) = trimStart a ++ b.
Proof.
  unfold trimStart. induction a as [| c r IH]; simpl; [congruence |].
  destruct (isWhiteSpace c); [exact IH | reflexivity].
Qed.

(** Trimming a string without whitespace at its end comes to trimming
    its start. *)
Lemma trim_of_fixed_end s : trimEnd s = s -> trim s = trimStart s.
Proof.
  intros He. unfold trim.
  destruct (trimStart_suffix s) as [w Hw].
  pose proof (trimEnd_app w (trimStart s)) as H. rewrite <- Hw, He in H.
  pose proof (startsClean_trimStart s) as Hclean.
  destruct (trimEnd (trimStart s)) as [| d r'] eqn:E.
  - apply trimEnd_nil_whitespace in E.
    destruct (trimStart s) as [| c r]; [reflexivity |].
    inversion E; subst. cbn in Hclean. congruence.
  - assert (w ++ trimStart s = w ++ d :: r') as Heq by congruence.
    apply app_inv_head in Heq. now symmetry.
Qed.

Lemma trim_app_started a b :
  trimStart a <> [] -> trimEnd a = a -> trimEnd b = b -> b <> [] ->
  trim (a ++ b) = trim a ++ b.
Proof.
  intros Ha Hae Hbe Hb.
  rewrite (trim_of_fixed_end a Hae).
  rewrite trim_of_fixed_end by (now apply trimEnd_app_fixed).
  now apply trimStart_app_started.
Qed.

Variables (options : TextExtractionOptions) (pdfDocument : PDFDocument).

(** The contribution of a page with text. *)
Lemma spec_contribution_text pageNum textContent :
  (1 <= pageNum)%nat ->
  fetchTextContent pdfDocument pageNum = Returns textContent ->
  trim (processTextContent textContent options) <> [] ->
  spec_contribution options pdfDocument pageNum
  = (if (1 <? pageNum)%nat then spec_marker pageNum else [])
      ++ processTextContent textContent options.
Proof.
  intros Hp E Htext. unfold spec_contribution. rewrite E. cbn zeta.
  destruct pageNum as [| [| k]]; [lia | reflexivity |].
  destruct (trim (processTextContent textContent options));
    [congruence | reflexivity].
Qed.

(** No contribution ends with whitespace. *)
Lemma spec_contribution_fixed pageNum :
  trimEnd (spec_contribution options pdfDocument pageNum)
  = spec_contribution options pdfDocument pageNum.
Proof.
  unfold spec_contribution.
  destruct (fetchTextContent pdfDocument pageNum) as [textContent | m];
    [| reflexivity].
  cbn zeta.
  pose proof (trim_processTextContent textContent options) as Ht.
  pose proof (trimEnd_of_trimmed _ Ht) as He.
  destruct pageNum as [| [| k]]; [| exact He |];
    (destruct (trim (processTextContent textContent options)) eqn:E;
     [exact He | apply trimEnd_app_fixed; [exact He | congruence]]).
Qed.

Lemma spec_textOfPages_fixed first count :
  trimEnd (spec_textOfPages options pdfDocument first count)
  = spec_textOfPages options pdfDocument first count.
Proof.
  unfold spec_textOfPages. induction (seq first count) as [| k l IH];
    [reflexivity |].
  cbn [map concat]. rewrite trimEnd_app, IH.
  destruct (concat (map (spec_contribution options pdfDocument) l)).
  - rewrite app_nil_r. apply spec_contribution_fixed.
  - reflexivity.
Qed.

(** Pages that contain a page with text start, once trimmed, with text. *)
Lemma spec_textOfPages_started first count pageNum textContent :
  In pageNum (seq first count) ->
  (1 <= pageNum)%nat ->
  fetchTextContent pdfDocument pageNum = Returns textContent ->
  trim (processTextContent textContent options) <> [] ->
  trimStart (spec_textOfPages options pdfDocument first count) <> [].
Proof.
  intros Hin Hp E Htext Hnil. apply Htext.
  apply trimStart_nil_whitespace in Hnil. apply trim_whitespace.
  rewrite Forall_forall in Hnil. apply Forall_forall. intros c Hc.
  apply Hnil. unfold spec_textOfPages. apply in_concat.
  exists (spec_contribution options pdfDocument pageNum). split.
  - now apply in_map.
  - rewrite (spec_contribution_text pageNum textContent Hp E Htext).
    apply in_or_app. now right.
Qed.

Lemma seq_around pageNum total :
  (1 <= pageNum <= total)%nat ->
  seq 1 total
  = seq 1 (pageNum - 1) ++ pageNum :: seq (S pageNum) (total - pageNum).
Proof.
  intros H.
  replace total with ((pageNum - 1) + S (total - pageNum))%nat at 1 by lia.
  rewrite seq_app. cbn [seq].
  now replace (1 + (pageNum - 1))%nat with pageNum by lia.
Qed.

(** Where the marker of a page stands in the trimmed text of the
    document, when a page before it has text. *)
Lemma marker_in_fullText pageNum textContent :
  (1 < pageNum <= numPages pdfDocument)%nat ->
  fetchTextContent pdfDocument pageNum = Returns textContent ->
  trim (processTextContent textContent options) <> [] ->
  (exists j earlier,
      (1 <= j < pageNum)%nat
      /\ fetchTextContent pdfDocument j = Returns earlier
      /\ trim (processTextContent earlier options) <> []) ->
  trim (spec_fullText options pdfDocument)
  = trim (spec_textOfPages options pdfDocument 1 (pageNum - 1))
      ++ spec_marker pageNum
      ++ processTextContent textContent options
      ++ spec_textOfPages options pdfDocument (S pageNum)
           (numPages pdfDocument - pageNum)
  /\ trim (spec_textOfPages options pdfDocument 1 (pageNum - 1)) <> [].
Proof.
  intros Hp E Htext (j & earlier & Hj & Ej & Hearlier).
  assert (trimStart (spec_textOfPages options pdfDocument 1 (pageNum - 1))
          <> []) as Hstarted.
  { apply (spec_textOfPages_started 1 (pageNum - 1) j earlier);
      [apply in_seq; lia | lia | assumption ..]. }
  split.
  - unfold spec_fullText.
    rewrite (seq_around pageNum (numPages pdfDocument)) by lia.
    rewrite map_app, concat_app.
    change (concat (map (spec_contribution options pdfDocument)
                        (seq 1 (pageNum - 1))))
      with (spec_textOfPages options pdfDocument 1 (pageNum - 1)).
    change (concat (map (spec_contribution options pdfDocument)
                        (pageNum :: seq (S pageNum)
                                      (numPages pdfDocument - pageNum))))
      with (spec_textOfPages options pdfDocument pageNum
              (S (numPages pdfDocument - pageNum))).
    rewrite trim_app_started.
    + f_equal. unfold spec_textOfPages at 1. cbn [seq map concat].
      rewrite (spec_contribution_text pageNum textContent) by (lia || assumption).
      assert ((1 <? pageNum)%nat = true) as -> by (apply Nat.ltb_lt; lia).
      now rewrite <- app_assoc.
    + exact Hstarted.
    + apply spec_textOfPages_fixed.
    + apply spec_textOfPages_fixed.
    + unfold spec_textOfPages. cbn [seq map concat].
      rewrite (spec_contribution_text pageNum textContent) by (lia || assumption).
      assert ((1 <? pageNum)%nat = true) as -> by (apply Nat.ltb_lt; lia).
      discriminate.
  - rewrite trim_of_fixed_end by apply spec_textOfPages_fixed.
    exact Hstarted.
Qed.

End MarkerInText.

(** C7, as the code has it. The marker is the literal text of two line
    breaks, "--- Page N ---" and two line breaks. Each turn of the page
    loop puts it in front of the text of page N exactly when N > 1 and the
    trimmed text of that page is not empty, so never in front of page 1.
    In the document text, the marker of such a page N stands in full,
    between the text assembled from the pages before N, which is not
    empty and ends without whitespace, and the text of page N, whenever
    one of the pages before N has text. The progress-observed extraction,
    given a valid file and pages that can all be read, resolves with the
    same document text. *)
Theorem page_marker_in_document_text :
  (forall N, pageSeparator N = spec_marker N)
  /\ (forall N pageText fullText,
        appendPage N pageText fullText
        = fullText
            ++ (if (1 <? N)%nat && truthy (trim pageText)
                then spec_marker N else [])
            ++ pageText)
  /\ (forall env file options arrayBuffer pdfDocument N textContent,
        fileToArrayBuffer env file = Returns arrayBuffer ->
        getDocument env arrayBuffer = Returns pdfDocument ->
        (1 < N <= numPages pdfDocument)%nat ->
        fetchTextContent pdfDocument N = Returns textContent ->
        trim (processTextContent textContent options) <> [] ->
        (exists j earlier,
            (1 <= j < N)%nat
            /\ fetchTextContent pdfDocument j = Returns earlier
            /\ trim (processTextContent earlier options) <> []) ->
        exists data before,
          extractDetailedTextFromPDF env file options = Returns data
          /\ ExtractedTextData.text data
             = before ++ spec_marker N
                 ++ processTextContent textContent options
                 ++ spec_textOfPages options pdfDocument (S N)
                      (numPages pdfDocument - N)
          /\ before = trim (spec_textOfPages options pdfDocument 1 (N - 1))
          /\ before <> []
          /\ noOuterSpace before)
  /\ (forall env f onProgress options log arrayBuffer pdfDocument,
        isValid (validatePDFFile (Some f)) = true ->
        fileToArrayBuffer env f = Returns arrayBuffer ->
        getDocument env arrayBuffer = Returns pdfDocument ->
        (forall k, (1 <= k <= numPages pdfDocument)%nat ->
                   exists textContent,
                     fetchTextContent pdfDocument k = Returns textContent) ->
        exists data log',
          extractDetailedTextFromPDF env f (optionsOrDefault options)
          = Returns data
          /\ extractTextWithProgress env (Some f) onProgress options log
             = (Returns (ExtractedTextData.text data), log')).
Proof.
  split; [reflexivity |]. split; [| split].
  - intros N pageText fullText. unfold appendPage.
    destruct ((1 <? N)%nat && truthy (trim pageText)).
    + now rewrite <- app_assoc.
    + reflexivity.
  - intros env file options arrayBuffer pdfDocument N textContent
      Hread Hload HN E Htext Hearlier.
    destruct (marker_in_fullText options pdfDocument N textContent HN E Htext
                Hearlier) as [Htrim Hbefore].
    do 2 eexists.
    split; [eapply extractDetailedTextFromPDF_run; eassumption |].
    cbn [ExtractedTextData.text]. split; [exact Htrim |].
    split; [reflexivity |]. split; [exact Hbefore |].
    apply trim_fixed_noOuterSpace, trim_idem.
  - intros env f onProgress options log arrayBuffer pdfDocument
      Hvalid Hread Hload Hpages.
    rewrite (extractDetailedTextFromPDF_run _ _ _ _ _ Hread Hload).
    rewrite (extractTextWithProgress_run _ _ _ _ _ _ _ Hvalid Hread Hload).
    match goal with
    | |- context [progressLoop ?b ?o ?d ?n ?r ?p ?t ?l] =>
        destruct (progressLoop_total o d n b r p t l) as (t' & log' & Hrun)
    end.
    { intros k Hk. apply in_seq in Hk. apply Hpages. lia. }
    rewrite Hrun. apply progressLoop_returns in Hrun as [-> _]; [| lia].
    do 2 eexists. split; reflexivity.
Qed.

Lemma page_marker_in_document_text_witness :
  (exists data before,
      extractDetailedTextFromPDF (Sample.opening Sample.threePages) Sample.pdf
        defaultOptions = Returns data
      /\ ExtractedTextData.text data
         = before ++ spec_marker 3
             ++ processTextContent
                  (Some [ {| str := lit "three"; transform4 := 0;
                             transform5 := 0; width := None |} ])
                  defaultOptions
             ++ spec_textOfPages defaultOptions Sample.threePages 4
                  (numPages Sample.threePages - 3)
      /\ before = trim (spec_textOfPages defaultOptions Sample.threePages 1
                          (3 - 1))
      /\ before <> []
      /\ noOuterSpace before)
  /\ (exists data log',
        extractDetailedTextFromPDF (Sample.opening Sample.twoPages) Sample.pdf
          (optionsOrDefault None) = Returns data
        /\ extractTextWithProgress (Sample.opening Sample.twoPages)
             (Some Sample.pdf) true None []
           = (Returns (ExtractedTextData.text data), log')).
Proof.
  split.
  - apply (proj1 (proj2 (proj2 page_marker_in_document_text))
             (Sample.opening Sample.threePages) Sample.pdf defaultOptions []
             Sample.threePages 3%nat
             (Some [ {| str := lit "three"; transform4 := 0;
                        transform5 := 0; width := None |} ])).
    + reflexivity.
    + reflexivity.
    + cbn. lia.
    + reflexivity.
    + intros H. vm_compute in H. discriminate.
    + exists 1%nat,
        (Some [ {| str := lit "one"; transform4 := 0; transform5 := 0;
                   width := None |} ]).
      split; [lia |]. split; [reflexivity |].
      intros H. vm_compute in H. discriminate.
  - apply (proj2 (proj2 (proj2 page_marker_in_document_text))
             (Sample.opening Sample.twoPages) Sample.pdf true None [] []
             Sample.twoPages).
    + reflexivity.
    + reflexivity.
    + reflexivity.
    + intros k Hk. cbn in Hk.
      assert (k = 1 \/ k = 2)%nat as [-> | ->] by lia; eexists; reflexivity.
Defined.

(** C7 as stated fails: in the two-page document whose first page has no
    text, the loop puts the marker of page 2 in front of the text of that
    page, though no page before it has contributed anything, and the
    document text, trimmed, starts with the dashes of the marker: the
    marker with its two leading line breaks occurs nowhere in it. The
    progress-observed extraction resolves with the same text. *)
Lemma page_marker_at_the_start_is_cut :
  exists data,
    extractDetailedTextFromPDF (Sample.opening Sample.blankFirst) Sample.pdf
      defaultOptions = Returns data
    /\ map PageInfo.text (ExtractedTextData.pages data) = [[]; lit "two"]
    /\ snd (detailedLoop defaultOptions Sample.blankFirst 2 1 ([], []))
       = pageSeparator 2 ++ lit "two"
    /\ ExtractedTextData.text data
       = lit "--- Page 2 ---" ++ [NL; NL] ++ lit "two"
    /\ fst (extractTextWithProgress (Sample.opening Sample.blankFirst)
              (Some Sample.pdf) true None [])
       = Returns (lit "--- Page 2 ---" ++ [NL; NL] ++ lit "two")
    /\ (forall before after,
          lit "--- Page 2 ---" ++ [NL; NL] ++ lit "two"
          <> before ++ pageSeparator 2 ++ after).
Proof.
  eexists. split; [reflexivity |]. repeat (split; [reflexivity |]).
  intros before after H.
  destruct before as [| x [| y before]].
  - vm_compute in H. discriminate.
  - vm_compute in H. discriminate.
  - apply (f_equal (@length char)) in H.
    rewrite !length_app in H.
    change (length (lit "--- Page 2 ---")) with 14%nat in H.
    change (length (pageSeparator 2)) with 18%nat in H.
    cbn [length lit] in H. cbn in H. lia.
Qed.

(* ===================================================================== *)
(** ** The upload component *)
(* ===================================================================== *)

Section BatchReplay.

Import FileUpload.

Variables (round : Q -> Q) (n : nat).

(** Replaying the calls of one file's extraction in the callback. *)
Lemma fold_onProgress i file log ui :
  snd (fold_left (onProgress round i n file) log ui)
  = snd ui ++ map (fileProgress round i n) (percents log)
  /\ error (fst (fold_left (onProgress round i n file) log ui)) = error (fst ui)
  /\ isProcessing (fst (fold_left (onProgress round i n file) log ui))
     = isProcessing (fst ui)
  /\ currentFileName (fst (fold_left (onProgress round i n file) log ui))
     = currentFileName (fst ui).
Proof.
  revert ui. induction log as [| [progress status] log IH]; intros ui.
  - cbn. now rewrite app_nil_r.
  - cbn [fold_left].
    destruct (IH (onProgress round i n file ui (progress, status)))
      as (Hs & He & Hp & Hc).
    rewrite Hs, He, Hp, Hc. cbn. rewrite <- app_assoc. auto.
Qed.

Variables (world : UploadedFile -> Environment) (now : nat -> Z).

(** The values that the loop sets the progress bar to: for each file that
    it gets to, the progress values of the file's extraction, through the
    expression of the callback. *)
Lemma processLoop_trace rest :
  forall i tick processedFiles ui,
    snd (fst (processLoop round world now n i tick rest processedFiles ui))
    = snd ui
      ++ concat (map (fun '(i, file) =>
                        map (fileProgress round i n) (progressOf world file))
                     (combine (seq i (length rest)) (attempted world rest))).
Proof.
  induction rest as [| file rest IH]; intros i tick processedFiles ui.
  - cbn. now rewrite app_nil_r.
  - cbn [processLoop attempted length seq]. unfold extractionOf.
    destruct (extractTextWithProgress (world file) (Some (descriptor file))
                true None []) as [outcome log] eqn:E.
    assert (progressOf world file = percents log) as Hlog
      by (unfold progressOf; now rewrite E).
    cbn [fst].
    set (ui1 := (setCurrentFileName (name file) (fst ui), snd ui)).
    destruct (fold_onProgress i file log ui1) as (Hbar & _).
    destruct outcome as [t | m].
    + rewrite IH, Hbar. cbn [combine map concat snd ui1].
      rewrite Hlog, <- app_assoc. reflexivity.
    + cbn [fst snd combine map concat]. rewrite Hbar, Hlog, combine_nil.
      cbn [map concat]. rewrite app_nil_r. reflexivity.
Qed.

End BatchReplay.

Section BatchProgress.

Import FileUpload.

Local Open Scope Q_scope.

Variable round : Q -> Q.
Hypothesis Hmono : monotoneRounding round.
Hypothesis Hnear : accurateRounding round.

Variable n : nat.
Hypothesis Hn : (1 <= n)%nat.
Hypothesis Hten : (n <= 10)%nat.

Lemma ofPage_succ i : ofPage (S i) == ofPage i + 1.
Proof.
  unfold ofPage. rewrite Nat2Z.inj_succ. unfold Z.succ.
  now rewrite inject_Z_plus.
Qed.

Lemma ofPage_inv_r : ofPage n * / ofPage n == 1.
Proof.
  apply Qmult_inv_r. intros E. pose proof (ofPage_total_pos n Hn) as Hp.
  rewrite E in Hp. now apply Qlt_irrefl in Hp.
Qed.

Lemma share_le_100 i : (i <= n)%nat -> (ofPage i / ofPage n) * 100 <= 100.
Proof.
  intros H. unfold Qdiv.
  pose proof (Qinv_lt_0_compat _ (ofPage_total_pos n Hn)) as Hinv.
  assert (ofPage i <= ofPage n) as Hin
    by (unfold ofPage; rewrite <- Zle_Qle; lia).
  pose proof (Qmult_le_compat_r _ _ (/ ofPage n) Hin
                (Qlt_le_weak _ _ Hinv)) as Hle.
  rewrite ofPage_inv_r in Hle. lra.
Qed.

Lemma share_lt i : (ofPage i / ofPage n) * 100 < (ofPage (S i) / ofPage n) * 100.
Proof.
  unfold Qdiv. rewrite ofPage_succ.
  pose proof (Qinv_lt_0_compat _ (ofPage_total_pos n Hn)) as Hinv. lra.
Qed.

(** With ten files at most, the first report of a file, 10, moves the bar
    by one at least. *)
Lemma tenth_share : 1 <= 10 * / ofPage n.
Proof.
  pose proof (Qinv_lt_0_compat _ (ofPage_total_pos n Hn)) as Hinv.
  assert (ofPage n <= 10) as Hle
    by (unfold ofPage; change 10 with (inject_Z 10); rewrite <- Zle_Qle; lia).
  pose proof (Qmult_le_compat_r _ _ (/ ofPage n) Hle
                (Qlt_le_weak _ _ Hinv)) as H.
  now rewrite ofPage_inv_r in H.
Qed.

Lemma fileProgress_mono i p p' :
  p <= p' -> fileProgress round i n p <= fileProgress round i n p'.
Proof.
  intros H. unfold fileProgress. apply Hmono.
  apply Qplus_le_r. apply Hmono. unfold Qdiv.
  apply Qmult_le_compat_r; [exact H |].
  apply Qlt_le_weak, Qinv_lt_0_compat, ofPage_total_pos, Hn.
Qed.

(** The values of file [i] lie in its share of the bar, up to the
    rounding. *)
Lemma fileProgress_range i p :
  (i < n)%nat -> 10 <= p -> p <= 100 ->
  (ofPage i / ofPage n) * 100 + (4 # 5) <= fileProgress round i n p
  /\ fileProgress round i n p <= (ofPage (S i) / ofPage n) * 100 + (1 # 5).
Proof.
  intros Hi Hlo Hhi.
  pose proof (Qinv_lt_0_compat _ (ofPage_total_pos n Hn)) as Hinv.
  pose proof (share_le_100 (S i) ltac:(lia)) as Htop.
  pose proof tenth_share as Hten'.
  assert (0 <= ofPage i) as Hi0
    by (unfold ofPage; change 0 with (inject_Z 0); rewrite <- Zle_Qle; lia).
  pose proof (Qmult_le_0_compat _ _ Hi0 (Qlt_le_weak _ _ Hinv)) as Hshare.
  pose proof (Qmult_le_compat_r _ _ (/ ofPage n) Hlo (Qlt_le_weak _ _ Hinv))
    as Hplo.
  pose proof (Qmult_le_compat_r _ _ (/ ofPage n) Hhi (Qlt_le_weak _ _ Hinv))
    as Hphi.
  unfold fileProgress, Qdiv in *. rewrite ofPage_succ in Htop |- *.
  destruct (Hnear (ofPage i * / ofPage n)) as [H1 H1']; [lra | lra |].
  destruct (Hnear (round (ofPage i * / ofPage n) * 100)) as [H2 H2'];
    [lra | lra |].
  destruct (Hnear (p * / ofPage n)) as [H3 H3']; [lra | lra |].
  destruct (Hnear (round (round (ofPage i * / ofPage n) * 100)
                   + round (p * / ofPage n))) as [H4 H4']; [lra | lra |].
  split; lra.
Qed.

Lemma nonDecreasing_map (g : Q -> Q) l :
  (forall p p', p <= p' -> g p <= g p') ->
  strictlyIncreasing l -> nonDecreasing (map g l).
Proof.
  intros Hg. induction l as [| a r IH]; [intros _; exact I |].
  destruct r as [| b r']; [intros _; exact I |].
  cbn [map strictlyIncreasing nonDecreasing]. intros [Hab H].
  split; [now apply Hg, Qlt_le_weak |]. now apply IH.
Qed.

Lemma nonDecreasing_app l1 l2 :
  nonDecreasing l1 -> nonDecreasing l2 ->
  (forall x y, In x l1 -> In y l2 -> x <= y) ->
  nonDecreasing (l1 ++ l2).
Proof.
  intros H1 H2 Hle. induction l1 as [| a r IH]; [exact H2 |].
  destruct r as [| b r'].
  - destruct l2 as [| c l2']; [exact I |].
    cbn [app nonDecreasing]. split; [| exact H2].
    apply Hle; now left.
  - cbn [app nonDecreasing] in *. destruct H1 as [Hab H1].
    split; [assumption |]. apply IH; [assumption |].
    intros x y Hx Hy. apply Hle; [now right | assumption].
Qed.

Variable world : UploadedFile -> Environment.

(** The values of a batch never go back, and stay within the bar up to
    the rounding. *)
Lemma trace_bar rest :
  forall i,
    (i + length rest = n)%nat ->
    let trace :=
      concat (map (fun '(i, file) =>
                     map (fileProgress round i n) (progressOf world file))
                  (combine (seq i (length rest)) (attempted world rest))) in
    nonDecreasing trace
    /\ Forall (fun q => (ofPage i / ofPage n) * 100 + (4 # 5) <= q
                        /\ q <= 100 + (1 # 5)) trace.
Proof.
  induction rest as [| file rest IH]; intros i Hlen; cbn zeta.
  - cbn. split; [exact I | constructor].
  - cbn [length] in Hlen. cbn [attempted length seq].
    pose proof (progress_log_facts (world file) (Some (descriptor file)) None)
      as (_ & Hinc & Hbound).
    cbn zeta in Hinc, Hbound.
    change (percents _) with (progressOf world file) in Hinc, Hbound.
    assert (nonDecreasing (map (fileProgress round i n)
                               (progressOf world file))) as Hseg
      by (apply nonDecreasing_map; [apply fileProgress_mono | assumption]).
    assert (Forall (fun q => (ofPage i / ofPage n) * 100 + (4 # 5) <= q
                             /\ q <= (ofPage (S i) / ofPage n) * 100 + (1 # 5))
              (map (fileProgress round i n) (progressOf world file)))
      as Hrange.
    { apply Forall_map. eapply Forall_impl; [| exact Hbound].
      intros q [Hlo Hhi]. apply fileProgress_range; [lia | assumption ..]. }
    pose proof (share_le_100 (S i) ltac:(lia)) as Htop.
    destruct (extractionOf world file) as [t | m]; cbn [combine map concat];
      [| rewrite combine_nil; cbn [map concat]].
    + destruct (IH (S i) ltac:(lia)) as [Hinc' Hb']. cbn zeta in Hinc', Hb'.
      split.
      * apply nonDecreasing_app; [assumption | assumption |].
        intros x y Hx Hy.
        rewrite Forall_forall in Hrange, Hb'.
        destruct (Hrange x Hx) as [_ Hx']. destruct (Hb' y Hy) as [Hy' _].
        lra.
      * apply Forall_app. split.
        -- eapply Forall_impl; [| exact Hrange]. intros q [Hlo Hhi].
           split; lra.
        -- eapply Forall_impl; [| exact Hb']. intros q [Hlo Hhi].
           pose proof (share_lt i). split; lra.
    + rewrite app_nil_r. split; [assumption |].
      eapply Forall_impl; [| exact Hrange]. intros q [Hlo Hhi]. split; lra.
Qed.

End BatchProgress.

Section Batch.

Import FileUpload.

Variables (round : Q -> Q) (world : UploadedFile -> Environment)
  (now : nat -> Z).

Lemma processLoop_outcome n rest :
  forall i tick processedFiles ui,
    match processLoop round world now n i tick rest processedFiles ui with
    | (ui', Some delivered) =>
        exists entries,
          delivered = processedFiles ++ entries
          /\ map ProcessedFile.originalFile entries = rest
          /\ Forall (faithfulEntryOf world) entries
          /\ error (fst ui') = error (fst ui)
    | (ui', None) =>
        exists file message,
          In file rest
          /\ extractionOf world file = Throws message
          /\ error (fst ui')
             = Some (lit "Failed to process " ++ name file ++ lit ": "
                       ++ message)
    end.
Proof.
  induction rest as [| file rest IH]; intros i tick processedFiles ui.
  - cbn. exists []. rewrite app_nil_r. repeat split. constructor.
  - cbn [processLoop].
    destruct (extractTextWithProgress (world file) (Some (descriptor file))
                true None []) as [outcome log] eqn:E.
    assert (extractionOf world file = outcome) as Hout
      by (unfold extractionOf; now rewrite E).
    set (ui1 := (setCurrentFileName (name file) (fst ui), snd ui)).
    destruct (fold_onProgress round n i file log ui1) as (_ & Herr & _).
    destruct outcome as [t | m].
    + match goal with
      | |- context [processLoop round world now n (S i) ?tk rest ?pf ?u] =>
          specialize (IH (S i) tk pf u);
          destruct (processLoop round world now n (S i) tk rest pf u)
            as [ui' [delivered |]]
      end.
      * destruct IH as (entries & -> & Hfiles & Hentries & He).
        eexists (_ :: entries). rewrite <- app_assoc. cbn [app].
        split; [reflexivity |]. cbn [map ProcessedFile.originalFile].
        split; [now rewrite Hfiles |]. split.
        -- constructor; [| assumption]. split; [reflexivity |].
           cbn [ProcessedFile.originalFile ProcessedFile.extractedText].
           exact Hout.
        -- rewrite He, Herr. reflexivity.
      * destruct IH as (file' & message & Hin & Hfail & He).
        exists file', message. split; [now right | auto].
    + exists file, m. split; [now left |]. split; [exact Hout | reflexivity].
Qed.

Lemma processLoop_total rest :
  forall n i tick processedFiles ui,
    Forall (fun file => exists t, extractionOf world file = Returns t) rest ->
    exists delivered,
      snd (processLoop round world now n i tick rest processedFiles ui)
      = Some delivered.
Proof.
  induction rest as [| file rest IH]; intros n i tick processedFiles ui Hall.
  - now exists processedFiles.
  - inversion Hall as [| ? ? [t Ht] Hrest]; subst.
    cbn [processLoop]. unfold extractionOf in Ht.
    destruct (extractTextWithProgress (world file) (Some (descriptor file))
                true None []) as [outcome log].
    cbn [fst] in Ht. subst outcome. now apply IH.
Qed.

Lemma firstInvalid_spec files :
  match firstInvalid files with
  | Some (file, validation) =>
      In file files
      /\ validation = validatePDFFile (Some (descriptor file))
      /\ isValid validation = false
  | None =>
      Forall (fun file =>
                isValid (validatePDFFile (Some (descriptor file))) = true)
        files
  end.
Proof.
  induction files as [| file rest IH]; cbn [firstInvalid]; [constructor |].
  destruct (isValid (validatePDFFile (Some (descriptor file)))) eqn:E;
    cbn [negb].
  - destruct (firstInvalid rest) as [[file' validation] |].
    + destruct IH as (Hin & Hv & Hi). split; [now right | auto].
    + now constructor.
  - split; [now left | auto].
Qed.

Lemma pdf_rejected_for_size file :
  isPdf file = true ->
  isValid (validatePDFFile (Some (descriptor file))) = false ->
  validationError (validatePDFFile (Some (descriptor file)))
  = lit "File size must be less than 50MB"
  \/ validationError (validatePDFFile (Some (descriptor file)))
     = lit "File appears to be empty".
Proof.
  unfold isPdf, validatePDFFile. intros ->. cbn [negb].
  destruct (maxFileSize <? size (descriptor file)); [now left |].
  destruct (size (descriptor file) =? 0); [now right | discriminate].
Qed.

End Batch.

Lemma filter_isPdf_In file files :
  In file (filter FileUpload.isPdf files) ->
  In file files /\ FileUpload.isPdf file = true.
Proof. apply filter_In. Qed.

(** The gate of a batch. Only the files of type "application/pdf" count.
    With none of them, or with more than ten, or when one of them fails the
    validation, [processFiles] only sets the error: nothing is extracted,
    the progress bar is not touched, nothing is delivered. A file that
    fails the validation here fails it for its size (over 50 MB, or empty),
    never for its type, and the error names the file. *)
Theorem processFiles_gate
    (round : Q -> Q) (world : UploadedFile -> Environment) (now : nat -> Z)
    (files : list UploadedFile) (st : FileUpload.state) :
  let pdfFiles := filter FileUpload.isPdf files in
  let stopped message :=
    FileUpload.processFiles round world now files st
    = ((FileUpload.setError (Some message) st, []), None) in
  (pdfFiles = [] -> stopped (lit "Please select valid PDF files only."))
  /\ ((10 < length pdfFiles)%nat ->
      stopped (lit "Maximum 10 files allowed at once."))
  /\ (forall file validation,
        (1 <= length pdfFiles <= 10)%nat ->
        FileUpload.firstInvalid pdfFiles = Some (file, validation) ->
        In file files
        /\ (stopped (name file ++ lit ": File size must be less than 50MB")
            \/ stopped (name file ++ lit ": File appears to be empty"))).
Proof.
  cbn zeta. unfold FileUpload.processFiles. split; [| split].
  - now intros ->.
  - intros H. destruct (length (filter FileUpload.isPdf files)) as [| k] eqn:E;
      [lia |].
    cbn [Nat.eqb]. apply Nat.ltb_lt in H. now rewrite H.
  - intros file validation [Hlo Hhi] Hfirst.
    destruct (length (filter FileUpload.isPdf files)) as [| k] eqn:E; [lia |].
    cbn [Nat.eqb].
    assert ((10 <? S k)%nat = false) as -> by (apply Nat.ltb_ge; lia).
    rewrite Hfirst.
    pose proof (firstInvalid_spec (filter FileUpload.isPdf files)) as Hspec.
    rewrite Hfirst in Hspec. destruct Hspec as (Hin & -> & Hinvalid).
    apply filter_isPdf_In in Hin as [Hin Hpdf]. split; [exact Hin |].
    destruct (pdf_rejected_for_size file Hpdf Hinvalid) as [-> | ->]; auto.
Qed.

Lemma processFiles_gate_witness :
  In Sample.emptyPdf [Sample.readme; Sample.report; Sample.emptyPdf]
  /\ (FileUpload.processFiles exactArithmetic Sample.library Sample.clock
        [Sample.readme; Sample.report; Sample.emptyPdf] Sample.idle
      = ((FileUpload.setError
            (Some (lit "empty.pdf" ++ lit ": File size must be less than 50MB"))
            Sample.idle, []), None)
      \/ FileUpload.processFiles exactArithmetic Sample.library Sample.clock
           [Sample.readme; Sample.report; Sample.emptyPdf] Sample.idle
         = ((FileUpload.setError
               (Some (lit "empty.pdf" ++ lit ": File appears to be empty"))
               Sample.idle, []), None)).
Proof.
  apply (proj2 (proj2 (processFiles_gate exactArithmetic Sample.library Sample.clock
                         [Sample.readme; Sample.report; Sample.emptyPdf]
                         Sample.idle))
           Sample.emptyPdf
           (validatePDFFile (Some (descriptor Sample.emptyPdf)))).
  - cbn. lia.
  - reflexivity.
Defined.

(** A batch is delivered whole or not at all. When [onFilesProcessed] is
    called, it gets one entry for each file of type "application/pdf", in
    the order of the files, each with the name of its file and the text its
    extraction resolved with, and no error is left set. When it is not
    called, an error is left set. It is called whenever there are one to
    ten such files, all pass the validation and all their extractions
    resolve. *)
Theorem processFiles_all_or_nothing
    (round : Q -> Q) (world : UploadedFile -> Environment) (now : nat -> Z)
    (files : list UploadedFile) (st : FileUpload.state) :
  let pdfFiles := filter FileUpload.isPdf files in
  let result := FileUpload.processFiles round world now files st in
  match snd result with
  | Some delivered =>
      map ProcessedFile.originalFile delivered = pdfFiles
      /\ Forall (faithfulEntryOf world) delivered
      /\ FileUpload.error (fst (fst result)) = None
  | None => exists message, FileUpload.error (fst (fst result)) = Some message
  end
  /\ ((1 <= length pdfFiles <= 10)%nat ->
      Forall (fun file =>
                isValid (validatePDFFile (Some (descriptor file))) = true)
        pdfFiles ->
      Forall (fun file => exists t, extractionOf world file = Returns t)
        pdfFiles ->
      exists delivered, snd result = Some delivered).
Proof.
  cbn zeta. unfold FileUpload.processFiles.
  set (pdfFiles := filter FileUpload.isPdf files).
  destruct (length pdfFiles =? 0)%nat eqn:E0.
  { cbn [fst snd FileUpload.error FileUpload.setError]. split; [eauto |]. apply Nat.eqb_eq in E0. lia. }
  destruct (10 <? length pdfFiles)%nat eqn:E10.
  { cbn [fst snd FileUpload.error FileUpload.setError]. split; [eauto |]. apply Nat.ltb_lt in E10. lia. }
  pose proof (firstInvalid_spec pdfFiles) as Hspec.
  destruct (FileUpload.firstInvalid pdfFiles) as [[file validation] |].
  { cbn [fst snd FileUpload.error FileUpload.setError]. split; [eauto |]. intros _ Hvalid _.
    destruct Hspec as (Hin & -> & Hinvalid).
    rewrite Forall_forall in Hvalid. specialize (Hvalid file Hin). congruence. }
  match goal with
  | |- context [FileUpload.processLoop round world now ?n ?i ?tk pdfFiles ?pf ?u] =>
      pose proof (processLoop_outcome round world now n pdfFiles i tk pf u) as Hout;
      pose proof (processLoop_total round world now pdfFiles n i tk pf u) as Htotal;
      destruct (FileUpload.processLoop round world now n i tk pdfFiles pf u)
        as [ui [delivered |]]
  end; cbn [fst snd] in *.
  - destruct Hout as (entries & -> & Hfiles & Hentries & He).
    cbn [app]. split; [| eauto]. repeat split; assumption.
  - destruct Hout as (file & message & Hin & Hfail & He).
    split; [eauto |]. intros _ _ Hall.
    destruct (Htotal Hall) as [delivered H]. discriminate.
Qed.

Lemma processFiles_all_or_nothing_witness :
  exists delivered,
    snd (FileUpload.processFiles exactArithmetic Sample.library Sample.clock
           [Sample.report; Sample.readme; Sample.notes] Sample.idle)
    = Some delivered.
Proof.
  apply (proj2 (processFiles_all_or_nothing exactArithmetic Sample.library Sample.clock
                  [Sample.report; Sample.readme; Sample.notes] Sample.idle)).
  - cbn. lia.
  - repeat constructor.
  - repeat constructor; eexists; reflexivity.
Defined.



(** [processFiles] leaves the component at rest. If it was not processing
    before, it is not processing afterwards; and once the processing has
    begun, it ends with [isProcessing] false, the progress at 0, and the
    status and the current file name empty, after a success as after a
    failure. *)
Theorem processFiles_leaves_at_rest
    (round : Q -> Q) (world : UploadedFile -> Environment) (now : nat -> Z)
    (files : list UploadedFile) (st : FileUpload.state) :
  let result := FileUpload.processFiles round world now files st in
  (FileUpload.isProcessing st = false ->
   FileUpload.isProcessing (fst (fst result)) = false)
  /\ (snd (fst result) <> [] ->
      FileUpload.isProcessing (fst (fst result)) = false
      /\ FileUpload.processingProgress (fst (fst result)) = 0%Q
      /\ FileUpload.processingStatus (fst (fst result)) = []
      /\ FileUpload.currentFileName (fst (fst result)) = []).
Proof.
  cbn zeta. unfold FileUpload.processFiles.
  destruct (length (filter FileUpload.isPdf files) =? 0)%nat;
    [cbn; split; [auto | congruence] |].
  destruct (10 <? length (filter FileUpload.isPdf files))%nat;
    [cbn; split; [auto | congruence] |].
  destruct (FileUpload.firstInvalid (filter FileUpload.isPdf files))
    as [[file validation] |]; [cbn; split; [auto | congruence] |].
  destruct (FileUpload.processLoop _ _ _ _ _ _ _ _ _) as [ui delivered].
  cbn. auto.
Qed.

Lemma processFiles_leaves_at_rest_witness :
  FileUpload.isProcessing
    (fst (fst (FileUpload.processFiles exactArithmetic Sample.library Sample.clock
                 [Sample.report; Sample.notes] Sample.idle))) = false
  /\ FileUpload.processingProgress
       (fst (fst (FileUpload.processFiles exactArithmetic Sample.library Sample.clock
                    [Sample.report; Sample.notes] Sample.idle))) = 0%Q
  /\ FileUpload.processingStatus
       (fst (fst (FileUpload.processFiles exactArithmetic Sample.library Sample.clock
                    [Sample.report; Sample.notes] Sample.idle))) = []
  /\ FileUpload.currentFileName
       (fst (fst (FileUpload.processFiles exactArithmetic Sample.library Sample.clock
                    [Sample.report; Sample.notes] Sample.idle))) = [].
Proof.
  apply (proj2 (processFiles_leaves_at_rest exactArithmetic Sample.library Sample.clock
                  [Sample.report; Sample.notes] Sample.idle)).
  discriminate.
Defined.

(* ===================================================================== *)
(** ** The statistics of the text editor *)
(* ===================================================================== *)

Section Statistics.

Lemma re_whitespace_match c r :
  re_match re_whitespace (c :: r)
  = if isWhiteSpace c then Some (dropWhile isWhiteSpace r) else None.
Proof.
  unfold re_whitespace. rewrite re_match_One, re_match_Star.
  destruct (isWhiteSpace c); [| reflexivity]. apply greedy_all.
Qed.

Lemma runs_word w :
  Forall (fun c => isWhiteSpace c = false) w -> runs w = [w].
Proof.
  induction 1 as [| c w Hc _ IH]; [reflexivity |].
  simpl. now rewrite Hc, IH.
Qed.

Lemma words_word w :
  Forall (fun c => isWhiteSpace c = false) w -> words w = filter truthy [w].
Proof. intros H. unfold words. now rewrite runs_word. Qed.

Lemma length_dropWhile p s : (length (dropWhile p s) <= length s)%nat.
Proof.
  induction s as [| c r IH]; simpl; [lia |]. destruct (p c); simpl; lia.
Qed.

(** The pieces of the scan that are not empty are the words. *)
Lemma splitRegex_fuel_words n s :
  forall piece,
    (length s < n)%nat ->
    Forall (fun c => isWhiteSpace c = false) piece ->
    filter truthy (splitRegex_fuel n re_whitespace piece s)
    = words (piece ++ s).
Proof.
  revert s. induction n as [| n IH]; intros s piece Hn Hpiece; [lia |].
  destruct s as [| c r].
  - cbn [splitRegex_fuel]. rewrite app_nil_r. now rewrite words_word.
  - cbn [splitRegex_fuel]. rewrite re_whitespace_match.
    destruct (isWhiteSpace c) eqn:Ec.
    + pose proof (length_dropWhile isWhiteSpace r) as Hl.
      assert ((length (dropWhile isWhiteSpace r) <? length (c :: r))%nat = true)
        as -> by (apply Nat.ltb_lt; simpl; lia).
      rewrite words_app_ws, (words_word piece), <- (words_trimStart r)
        by assumption.
      unfold trimStart.
      assert (filter truthy
                (splitRegex_fuel n re_whitespace [] (dropWhile isWhiteSpace r))
              = words (dropWhile isWhiteSpace r)) as <-
        by (apply (IH _ []); [simpl in *; lia | constructor]).
      cbn [filter app]. now destruct (truthy piece).
    + rewrite IH.
      * now rewrite <- app_assoc.
      * simpl in Hn. lia.
      * apply Forall_app. split; [assumption | now constructor].
Qed.

Lemma wordCount_words text : wordCount text = length (words text).
Proof.
  unfold wordCount, splitRegex.
  rewrite (filter_ext (fun word : jsstring => (0 <? length word)%nat) truthy)
    by now intros [| c w].
  rewrite <- (words_trim text).
  destruct (trim text) as [| c r] eqn:E; [reflexivity |].
  now rewrite splitRegex_fuel_words by (try constructor; simpl; lia).
Qed.

End Statistics.

(** The word count of the editor is the number of words of the text, and
    normalizing a text does not change it. *)
Theorem wordCount_counts_words (text : jsstring) :
  wordCount text = length (words text)
  /\ wordCount (cleanExtractedText text) = wordCount text.
Proof.
  split; [apply wordCount_words |].
  now rewrite !wordCount_words, words_cleanExtractedText.
Qed.

(** With the default options, the word count that the editor shows for a
    page is the sum of the word counts of the fragments of the page. *)
Theorem wordCount_of_a_page
    (items : list TextItem) (options : TextExtractionOptions)
    (Hpreserve : preserveFormatting options = true)
    (Hcombine : combineTextItems options = true) :
  wordCount (processTextContent (Some items) options)
  = list_sum (map (fun item => wordCount (str item)) items).
Proof.
  rewrite wordCount_words, words_processTextContent by assumption.
  induction items as [| item rest IH]; [reflexivity |].
  cbn [map concat list_sum]. now rewrite length_app, IH, wordCount_words.
Qed.

Lemma wordCount_of_a_page_witness :
  wordCount (processTextContent
               (Some [Sample.hello; Sample.blank; Sample.world None])
               defaultOptions)
  = 2%nat.
Proof.
  apply (wordCount_of_a_page
           [Sample.hello; Sample.blank; Sample.world None] defaultOptions);
    reflexivity.
Defined.

(* ===================================================================== *)
(** ** The entry points side by side *)
(* ===================================================================== *)

(** Only the progress-observed form validates the file. For a file that
    the validation gate rejects but whose bytes do open as a document, the
    detailed extraction and [extractTextFromPDF] resolve all the same,
    while [extractTextWithProgress] rejects. *)
Theorem only_the_progress_form_validates
    (env : Environment) (f : File) (options : TextExtractionOptions)
    (onProgress : bool) (log : list ProgressCall)
    (arrayBuffer : list N) (pdfDocument : PDFDocument)
    (Hinvalid : isValid (validatePDFFile (Some f)) = false)
    (Hread : fileToArrayBuffer env f = Returns arrayBuffer)
    (Hload : getDocument env arrayBuffer = Returns pdfDocument) :
  (exists data, extractDetailedTextFromPDF env f options = Returns data)
  /\ (exists t, extractTextFromPDF env f options = Returns t)
  /\ (exists message log',
        extractTextWithProgress env (Some f) onProgress (Some options) log
        = (Throws message, log')).
Proof.
  split; [| split].
  - eexists. eapply extractDetailedTextFromPDF_run; eassumption.
  - eexists. eapply extractTextFromPDF_resolves; eassumption.
  - now apply extractTextWithProgress_invalid.
Qed.

Lemma only_the_progress_form_validates_witness :
  (exists data,
      extractDetailedTextFromPDF (Sample.opening Sample.twoPages)
        Sample.hugeTextFile defaultOptions = Returns data)
  /\ (exists t,
        extractTextFromPDF (Sample.opening Sample.twoPages)
          Sample.hugeTextFile defaultOptions = Returns t)
  /\ (exists message log',
        extractTextWithProgress (Sample.opening Sample.twoPages)
          (Some Sample.hugeTextFile) true (Some defaultOptions) []
        = (Throws message, log')).
Proof.
  apply (only_the_progress_form_validates (Sample.opening Sample.twoPages)
           Sample.hugeTextFile defaultOptions true [] [] Sample.twoPages);
    reflexivity.
Defined.

(** For a document of one page that can be read, the document text is the
    text of the page, with no marker and nothing trimmed away, and the
    page list has that one entry. *)
Theorem single_page_document
    (env : Environment) (file : File) (options : TextExtractionOptions)
    (arrayBuffer : list N) (pdfDocument : PDFDocument)
    (textContent : TextContent)
    (Hread : fileToArrayBuffer env file = Returns arrayBuffer)
    (Hload : getDocument env arrayBuffer = Returns pdfDocument)
    (Hone : numPages pdfDocument = 1%nat)
    (Hpage : fetchTextContent pdfDocument 1 = Returns textContent) :
  exists data,
    extractDetailedTextFromPDF env file options = Returns data
    /\ ExtractedTextData.text data = processTextContent textContent options
    /\ ExtractedTextData.pages data
       = [ {| PageInfo.pageNumber := 1;
              PageInfo.text := processTextContent textContent options;
              PageInfo.characterCount :=
                length (processTextContent textContent options) |} ].
Proof.
  eexists. split; [eapply extractDetailedTextFromPDF_run; eassumption |].
  cbn [ExtractedTextData.text ExtractedTextData.pages].
  unfold spec_fullText. rewrite Hone. cbn [seq map concat].
  unfold spec_contribution, pageEntry. rewrite Hpage. cbn zeta.
  rewrite app_nil_r. split; [apply trim_processTextContent | reflexivity].
Qed.

Lemma single_page_document_witness :
  exists data,
    extractDetailedTextFromPDF
      (Sample.opening
         {| numPages := 1; getPage := fun _ => Sample.pageOf "only";
            getMetadata := Returns None |})
      Sample.pdf defaultOptions = Returns data
    /\ ExtractedTextData.text data = lit "only"
    /\ ExtractedTextData.pages data
       = [ {| PageInfo.pageNumber := 1; PageInfo.text := lit "only";
              PageInfo.characterCount := 4 |} ].
Proof.
  apply (single_page_document
           (Sample.opening
              {| numPages := 1; getPage := fun _ => Sample.pageOf "only";
                 getMetadata := Returns None |})
           Sample.pdf defaultOptions []
           {| numPages := 1; getPage := fun _ => Sample.pageOf "only";
              getMetadata := Returns None |}
           (Some [ {| str := lit "only"; transform4 := 0; transform5 := 0;
                      width := None |} ]));
    reflexivity.
Defined.
